(** * PixelCanvas: the pixel grid, its brush and its undo history

    A shallow embedding of [src/components/PixelCanvas/PixelCanvas.tsx].

    The component keeps five pieces of React state ([pixels], [history],
    [historyStep], [isDrawing], [hoverPos]) and reads its settings from three
    contexts.  Here
    - JavaScript arrays live in an explicit heap of objects, so that a copy
      ([row => [...row]]) and an alias can be told apart;
    - each handler is a function from the state of the last committed render
      to the state of the next one, the effects that the re-render triggers
      included;
    - JavaScript numbers are binary64 floats in [getCell], the one place that
      divides; cell indices, pen sizes and the history cursor are integers
      ([Z]), as [Math.floor] and the counters of the code produce them.

    The background grid and the markup are left out: nothing below depends
    on them. *)

From Stdlib Require Import ZArith Lia.
From Stdlib Require Import Uint63 PrimFloat FloatOps SpecFloat FloatAxioms.
From Stdlib Require Import String.
From stdpp Require Import base option list.

Local Open Scope Z_scope.

(* ================================================================= *)
(** ** JavaScript numbers: [Math.floor] on binary64 *)

Module JsNumber.

(** An integer below 2^53 in absolute value, as the float that holds it. *)
Definition of_Z (z : Z) : float :=
  if z <? 0 then PrimFloat.opp (PrimFloat.of_uint63 (Uint63.of_Z (- z)))
  else PrimFloat.of_uint63 (Uint63.of_Z z).

(** [Math.floor]: NaN, the infinities and the zeros are returned as they
    are; a finite [m * 2^e] with [e >= 0] is already an integer; otherwise
    the value is below 2^53 and its floor is exact. *)
Definition Math_floor (x : float) : float :=
  match Prim2SF x with
  | S754_finite s m e =>
      if 0 <=? e then x
      else of_Z ((if s then Z.neg m else Z.pos m) / 2 ^ (- e))
  | _ => x
  end.

End JsNumber.

(* ================================================================= *)
(** ** getCell: mouse coordinates to grid cell *)

(** [rect] is [canvasRef.current.getBoundingClientRect()], of which the code
    reads [left] and [top]. *)
Record cellF := { rowF : float; colF : float }.

Definition getCell (clientX clientY left top zoom pixelSize : float) : cellF :=
  let x := ((clientX - left) / zoom)%float in
  let y := ((clientY - top) / zoom)%float in
  let col := JsNumber.Math_floor (x / pixelSize)%float in
  let row := JsNumber.Math_floor (y / pixelSize)%float in
  {| rowF := row; colF := col |}.




(* ================================================================= *)
(** ** The heap of arrays *)

Abbreviation loc := nat.

(** An element of a [string[]]: a colour, or a hole left by a write past the
    end. *)
Abbreviation slot := (option string).

(** [pixels] and every history entry are arrays of row arrays. *)
Inductive jsobj :=
  | Row (cells : list slot)
  | Grid (rows : list loc).

Abbreviation heap := (list jsobj).

Definition alloc (o : jsobj) (h : heap) : loc * heap := (length h, h ++ [o]).

Definition getRow (h : heap) (l : loc) : option (list slot) :=
  match h !! l with Some (Row cs) => Some cs | _ => None end.

Definition getGrid (h : heap) (l : loc) : option (list loc) :=
  match h !! l with Some (Grid rows) => Some rows | _ => None end.

(** [rows.map((row) => [...row])], the new rows allocated in order. *)
Fixpoint copyRows (h : heap) (rows : list loc) : option (list loc * heap) :=
  match rows with
  | [] => Some ([], h)
  | r :: rest =>
      cs ← getRow h r;
      let '(r', h1) := alloc (Row cs) h in
      '(rest', h2) ← copyRows h1 rest;
      Some (r' :: rest', h2)
  end.

(** [g.map((row) => [...row])]: a new outer array of new rows. *)
Definition deepCopy (h : heap) (g : loc) : option (loc * heap) :=
  rows ← getGrid h g;
  '(rows', h1) ← copyRows h rows;
  Some (alloc (Grid rows') h1).

(** [a[i] = v] on an array: in range it overwrites, past the end it extends
    the array with holes. *)
Definition arraySet (i : nat) (v : string) (cs : list slot) : list slot :=
  if decide (i < length cs)%nat then <[i := Some v]> cs
  else cs ++ replicate (i - length cs) None ++ [Some v].

(** [g[r][c] = v].  [g[r]] is [undefined] for [r] outside the outer array,
    and assigning into it throws (here [None]); a negative [c] sets a
    property and leaves the elements alone. *)
Definition setCell (h : heap) (g : loc) (r c : Z) (v : string) : option heap :=
  rows ← getGrid h g;
  rl ← (if r <? 0 then None else rows !! Z.to_nat r);
  cs ← getRow h rl;
  if c <? 0 then Some h
  else Some (<[rl := Row (arraySet (Z.to_nat c) v cs)]> h).

(** The content of a grid, read through the heap. *)
Definition readGrid (h : heap) (g : loc) : option (list (list slot)) :=
  rows ← getGrid h g; mapM (getRow h) rows.

(** Every location a grid is stored in: the outer array and its rows. *)
Definition gridLocs (h : heap) (g : loc) : list loc :=
  g :: default [] (getGrid h g).

(** [h'] differs from [h] at most in the cells of the rows at [L]. *)
Definition rowsChanged (L : list loc) (h h' : heap) : Prop :=
  length h' = length h ∧
  (∀ l, getGrid h' l = getGrid h l) ∧
  (∀ l, l ∉ L → getRow h' l = getRow h l).

(** [m[r][c]] on a grid content. *)
Definition cellAt (m : list (list slot)) (r c : Z) : option slot :=
  if (r <? 0) || (c <? 0) then None
  else row ← m !! Z.to_nat r; row !! Z.to_nat c.

(** [a[i]] with a number for index. *)
Definition lookupZ {A} (l : list A) (i : Z) : option A :=
  if i <? 0 then None else l !! Z.to_nat i.

(** [a.slice(0, e)]: a negative [e] counts from the end. *)
Definition slice0 {A} (l : list A) (e : Z) : list A :=
  if e <? 0 then take (Z.to_nat (Z.of_nat (length l) + e)) l
  else take (Z.to_nat e) l.

(** [for (let d = 0; d < n; d++)]: the values [d] takes. *)
Definition range (n : Z) : list Z := Z.of_nat <$> seq 0 (Z.to_nat n).

(* ================================================================= *)
(** ** The component's state *)

(** The five [useState] cells, and the heap their arrays live in.  [history]
    itself is only ever replaced by a new outer array ([slice], spread), so
    it is kept as the list of its entries' locations. *)
Record state := {
  mem : heap;
  pixels : loc;
  history : list loc;
  historyStep : Z;
  isDrawing : bool;
  hoverPos : option (Z * Z)
}.

Definition setPixels (p : loc) (h : heap) (s : state) : state :=
  {| mem := h; pixels := p; history := history s;
     historyStep := historyStep s; isDrawing := isDrawing s;
     hoverPos := hoverPos s |}.

Definition setIsDrawing (b : bool) (s : state) : state :=
  {| mem := mem s; pixels := pixels s; history := history s;
     historyStep := historyStep s; isDrawing := b; hoverPos := hoverPos s |}.

Definition setHoverPos (p : option (Z * Z)) (s : state) : state :=
  {| mem := mem s; pixels := pixels s; history := history s;
     historyStep := historyStep s; isDrawing := isDrawing s; hoverPos := p |}.

Definition setHistory (hist : list loc) (h : heap) (s : state) : state :=
  {| mem := h; pixels := pixels s; history := hist;
     historyStep := historyStep s; isDrawing := isDrawing s;
     hoverPos := hoverPos s |}.

Definition setHistoryStep (i : Z) (s : state) : state :=
  {| mem := mem s; pixels := pixels s; history := history s;
     historyStep := i; isDrawing := isDrawing s; hoverPos := hoverPos s |}.

(** The content of the grid store, and of the history entry at an index. *)
Definition grid (s : state) : option (list (list slot)) :=
  readGrid (mem s) (pixels s).

Definition entry (s : state) (i : Z) : option (list (list slot)) :=
  g ← lookupZ (history s) i; readGrid (mem s) g.

(** The 2D drawing context of the foreground canvas: the current fill style,
    and the rectangles filled so far, each with the style it was filled in. *)
Record canvas := {
  fillStyle : string;
  filled : list (string * (Z * Z * Z * Z))
}.

(** What a render-time drawing routine can reach: the component's state and
    the canvas. *)
Record world := { comp : state; ctx : canvas }.

Definition setFillStyle (c : string) (w : world) : world :=
  {| comp := comp w; ctx := {| fillStyle := c; filled := filled (ctx w) |} |}.

Definition fillRect (x y wd ht : Z) (w : world) : world :=
  {| comp := comp w;
     ctx := {| fillStyle := fillStyle (ctx w);
               filled := filled (ctx w)
                         ++ [(fillStyle (ctx w), (x, y, wd, ht))] |} |}.

(** Whether the rectangle [r] lies within the rectangle at [(x, y)] of
    width [wd] and height [ht]. *)
Definition insideRect (x y wd ht : Z) (r : Z * Z * Z * Z) : bool :=
  let '(rx, ry, rw, rh) := r in
  (x <=? rx) && (rx + rw <=? x + wd) && (y <=? ry) && (ry + rh <=? y + ht).

(** [ctx.clearRect(x, y, wd, ht)]: what was filled within the cleared area is
    gone.  (A rectangle that only overlaps it stays in the record.) *)
Definition clearRect (x y wd ht : Z) (w : world) : world :=
  {| comp := comp w;
     ctx := {| fillStyle := fillStyle (ctx w);
               filled := filter (λ f, insideRect x y wd ht f.2 = false)
                                (filled (ctx w)) |} |}.

(** Every element of every row is a colour: no row has a hole. *)
Definition noHoles (m : list (list (option string))) : Prop :=
  Forall (Forall is_Some) m.

(* ================================================================= *)
(** ** The settings a render reads *)

(** What a render reads from the three contexts.  [selectedColor] is an HSV
    colour whose type is not among the sources: a parameter. *)
Record env (Hsv : Type) := {
  logicWidth : Z;
  logicHeight : Z;
  pixelSize : Z;
  isGrab : bool;
  penSize : Z;
  selectedColor : Hsv;
  selectedTool : string
}.

Arguments logicWidth {Hsv} _.
Arguments logicHeight {Hsv} _.
Arguments pixelSize {Hsv} _.
Arguments isGrab {Hsv} _.
Arguments penSize {Hsv} _.
Arguments selectedColor {Hsv} _.
Arguments selectedTool {Hsv} _.

(* ================================================================= *)
(** ** Mounting *)

(** [Array(n)] for an integer [n]: a RangeError unless [0 <= n < 2^32].
    (The resolution is taken to be integers; what memory the arrays need is
    not counted.) *)
Definition arrayLength (n : Z) : bool := (0 <=? n) && (n <? 2 ^ 32).

(** The first render allocates the transparent grid; the mount effect seeds
    the history with a copy of it.  The effect on [historyStep] also runs at
    mount, against the [history] of the first render, which is empty: it
    does nothing, and it does not run again, the cursor being unchanged.
    [Array(logicWidth)] is evaluated once per row, so not at all when
    [logicHeight] is 0. *)
Definition mount {Hsv} (e : env Hsv) : option state :=
  if negb (arrayLength (logicHeight e))
     || ((0 <? logicHeight e) && negb (arrayLength (logicWidth e)))
  then None
  else
    let nrows := Z.to_nat (logicHeight e) in
    let blank :=
      Row (replicate (Z.to_nat (logicWidth e)) (Some "transparent"%string)) in
    let h0 := replicate nrows blank ++ [Grid (seq 0 nrows)] in
    '(initial, h1) ← deepCopy h0 nrows;
    Some {| mem := h1; pixels := nrows; history := [initial];
            historyStep := 0; isDrawing := false; hoverPos := None |}.

(** The content of the grid of the first render: [logicHeight] rows of
    [logicWidth] transparent cells. *)
Definition blankGrid {Hsv} (e : env Hsv) : list (list (option string)) :=
  replicate (Z.to_nat (logicHeight e))
    (replicate (Z.to_nat (logicWidth e)) (Some "transparent"%string)).

(** A 2 x 2 canvas with a one-cell red pen, and the state it mounts in. *)
Definition e0 : env unit :=
  {| logicWidth := 2; logicHeight := 2; pixelSize := 10; isGrab := false;
     penSize := 1; selectedColor := tt; selectedTool := "pen" |}.

(** A 3 x 3 canvas with the same pen. *)
Definition e3 : env unit :=
  {| logicWidth := 3; logicHeight := 3; pixelSize := 10; isGrab := false;
     penSize := 1; selectedColor := tt; selectedTool := "pen" |}.

(** The helper [hsvToCss] at this instance: every colour is red. *)
Definition cssRed (_ : unit) : string := "red".

(** [isEdge] at this instance.  The pens of the examples are of size 1 and
    2, for which the code does not call it. *)
Definition noEdge (_ _ _ : Z) : bool := false.

(** A 5 x 5 canvas with a pen of size 2. *)
Definition e5 : env unit :=
  {| logicWidth := 5; logicHeight := 5; pixelSize := 10; isGrab := false;
     penSize := 2; selectedColor := tt; selectedTool := "pen" |}.

(** The 2 x 2 canvas in grab mode, and with the eraser selected. *)
Definition e0grab : env unit :=
  {| logicWidth := 2; logicHeight := 2; pixelSize := 10; isGrab := true;
     penSize := 1; selectedColor := tt; selectedTool := "pen" |}.

Definition e0eraser : env unit :=
  {| logicWidth := 2; logicHeight := 2; pixelSize := 10; isGrab := false;
     penSize := 1; selectedColor := tt; selectedTool := "eraser" |}.

(** The mounted state with the pointer over the cell (0, 0), on a canvas
    nothing is drawn on yet. *)
Definition w0 : world :=
  let t := Some "transparent"%string in
  {| comp := {| mem := [Row [t; t]; Row [t; t]; Grid [0; 1]%nat;
                        Row [t; t]; Row [t; t]; Grid [3; 4]%nat];
                pixels := 2%nat; history := [5%nat]; historyStep := 0;
                isDrawing := false; hoverPos := Some (0, 0) |};
     ctx := {| fillStyle := "black"; filled := [] |} |}.

Definition s0 : state :=
  let t := Some "transparent"%string in
  {| mem := [Row [t; t]; Row [t; t]; Grid [0; 1]%nat;
             Row [t; t]; Row [t; t]; Grid [3; 4]%nat];
     pixels := 2%nat; history := [5%nat]; historyStep := 0;
     isDrawing := false; hoverPos := None |}.

(** The state after a stroke of the red pen over the cell (0, 0) of the
    mounted canvas: two entries, the cursor on the second. *)
Definition sStroke : state :=
  let t := Some "transparent"%string in
  let r := Some "red"%string in
  {| mem := [Row [t; t]; Row [t; t]; Grid [0; 1]%nat;
             Row [t; t]; Row [t; t]; Grid [3; 4]%nat;
             Row [r; t]; Row [t; t]; Grid [6; 7]%nat;
             Row [r; t]; Row [t; t]; Grid [9; 10]%nat;
             Row [r; t]; Row [t; t]; Grid [12; 13]%nat];
     pixels := 14%nat; history := [5; 11]%nat; historyStep := 1;
     isDrawing := false; hoverPos := None |}.

(** The state after that stroke and one undo: the same two entries, the
    cursor on the first, the second beyond it. *)
Definition sUndo : state :=
  let t := Some "transparent"%string in
  let r := Some "red"%string in
  {| mem := [Row [t; t]; Row [t; t]; Grid [0; 1]%nat;
             Row [t; t]; Row [t; t]; Grid [3; 4]%nat;
             Row [r; t]; Row [t; t]; Grid [6; 7]%nat;
             Row [r; t]; Row [t; t]; Grid [9; 10]%nat;
             Row [r; t]; Row [t; t]; Grid [12; 13]%nat;
             Row [t; t]; Row [t; t]; Grid [15; 16]%nat];
     pixels := 17%nat; history := [5; 11]%nat; historyStep := 0;
     isDrawing := false; hoverPos := None |}.

Section Component.

(** [hsvToCss] turns the selected colour into a CSS string and [isEdge] is
    the corner test of the brush; neither helper is among the sources, and
    nothing in this section depends on what they compute. *)
Context {Hsv : Type}.
Variable hsvToCss : Hsv -> string.
Variable isEdge : Z -> Z -> Z -> bool.

Implicit Types (e : env Hsv) (s : state).

(** *** The brush *)

(** The offsets [(dy, dx)] the double loop of [drawPixel] and of
    [drawGhostBrush] does not skip, in the order it visits them. *)
Definition offsets (n : Z) : list (Z * Z) :=
  dy ← range n; dx ← range n;
  if (n >? 2) && isEdge n dy dx then [] else [(dy, dx)].

(** The cells [(r, c)] with [r = row + dy] and [c = col + dx]. *)
Definition footprint (row col n : Z) : list (Z * Z) :=
  (λ d, (row + d.1, col + d.2)) <$> offsets n.

(** [r >= 0 && r < logicHeight && c >= 0 && c < logicWidth] *)
Definition inBounds (e : env Hsv) (r c : Z) : bool :=
  (0 <=? r) && (r <? logicHeight e) && (0 <=? c) && (c <? logicWidth e).

(** [selectedTool === "eraser" ? "transparent" : hsvToCss(selectedColor)] *)
Definition brushColor (e : env Hsv) : string :=
  if String.eqb (selectedTool e) "eraser" then "transparent"%string
  else hsvToCss (selectedColor e).

(** The body of the loops of [drawPixel] on the cells not skipped. *)
Fixpoint stamp (e : env Hsv) (g : loc) (cells : list (Z * Z)) (h : heap)
  : option heap :=
  match cells with
  | [] => Some h
  | (r, c) :: rest =>
      h1 ← (if inBounds e r c then setCell h g r c (brushColor e)
            else Some h);
      stamp e g rest h1
  end.

Definition drawPixel (e : env Hsv) (row col : Z) (s : state) : option state :=
  if isGrab e then Some s
  else
    '(newPixels, h1) ← deepCopy (mem s) (pixels s);
    h2 ← stamp e newPixels (footprint row col (penSize e)) h1;
    Some (setPixels newPixels h2 s).

(** *** The ghost brush *)

Definition ghostCell (e : env Hsv) (w : world) (rc : Z * Z) : world :=
  if inBounds e rc.1 rc.2
  then fillRect (rc.2 * pixelSize e) (rc.1 * pixelSize e)
                (pixelSize e) (pixelSize e) w
  else w.

Definition drawGhostBrush (e : env Hsv) (w : world) : world :=
  match hoverPos (comp w) with
  | Some (row, col) =>
      if negb (isDrawing (comp w)) && negb (isGrab e) then
        let w1 :=
          setFillStyle (if String.eqb (selectedTool e) "eraser"
                        then "transparent"%string
                        else hsvToCss (selectedColor e)) w in
        fold_left (ghostCell e) (footprint row col (penSize e)) w1
      else w
  | None => w
  end.

(** *** The repaint of the grid *)

(** The rectangle of a cell on the canvas. *)
Definition cellRect (e : env Hsv) (r c : Z) : Z * Z * Z * Z :=
  (c * pixelSize e, r * pixelSize e, pixelSize e, pixelSize e).

(** The cells the two loops of [drawForegroundGrid] visit, row by row. *)
Definition gridCells (e : env Hsv) : list (Z * Z) :=
  row ← range (logicHeight e); col ← range (logicWidth e); [(row, col)].

(** [ctx.fillStyle = pixels[row][col]; ctx.fillRect(...)].  Reading [col]
    of a row that is not there throws; a cell that is not there reads as
    [undefined], which the canvas does not take for a style: the style stays
    as it was.  The strings of the grid ("transparent" and what [hsvToCss]
    returned) are taken for CSS colours, as in [drawGhostBrush]. *)
Definition paintCell (e : env Hsv) (w : world) (rc : Z * Z) : option world :=
  rows ← getGrid (mem (comp w)) (pixels (comp w));
  rl ← lookupZ rows rc.1;
  cs ← getRow (mem (comp w)) rl;
  let w1 :=
    match lookupZ cs rc.2 with
    | Some (Some colour) => setFillStyle colour w
    | _ => w
    end in
  Some (fillRect (rc.2 * pixelSize e) (rc.1 * pixelSize e)
                 (pixelSize e) (pixelSize e) w1).

Fixpoint paintCells (e : env Hsv) (cells : list (Z * Z)) (w : world)
  : option world :=
  match cells with
  | [] => Some w
  | rc :: rest => w1 ← paintCell e w rc; paintCells e rest w1
  end.

(** [visualWidth] and [visualHeight] are [logicWidth * pixelSize] and
    [logicHeight * pixelSize], the size of the canvas. *)
Definition drawForegroundGrid (e : env Hsv) (w : world) : option world :=
  paintCells e (gridCells e)
    (clearRect 0 0 (logicWidth e * pixelSize e) (logicHeight e * pixelSize e)
               w).

(** *** The effect on [historyStep] *)

(** [if (history[historyStep]) setPixels(history[historyStep].map(...))],
    run after a render in which [historyStep] changed. *)
Definition restoreEffect (s : state) : option state :=
  match lookupZ (history s) (historyStep s) with
  | Some g =>
      '(p, h) ← deepCopy (mem s) g;
      Some (setPixels p h s)
  | None => Some s
  end.

(** *** Handlers *)

Definition handleMouseDown (e : env Hsv) (row col : Z) (s : state)
  : option state :=
  s1 ← drawPixel e row col s;
  Some (setIsDrawing true s1).

Definition handleMouseMove (e : env Hsv) (row col : Z) (s : state)
  : option state :=
  let s1 := setHoverPos (Some (row, col)) s in
  if isDrawing s then drawPixel e row col s1 else Some s1.

(** The two functional updates are applied in one batch; the cursor always
    changes, so the effect on [historyStep] follows the render. *)
Definition handleMouseUp (s : state) : option state :=
  let s1 := setIsDrawing false s in
  '(newPixels, h1) ← deepCopy (mem s1) (pixels s1);
  let newHistory := slice0 (history s1) (historyStep s1 + 1) in
  let s2 := setHistory (newHistory ++ [newPixels]) h1 s1 in
  let s3 := setHistoryStep (historyStep s2 + 1) s2 in
  restoreEffect s3.

Definition handleMouseLeave (s : state) : state := setHoverPos None s.

(** The Ctrl+Z branch of [handleKeyDown].  A state update to an equal value
    causes no render, hence no effect. *)
Definition undo (s : state) : option state :=
  let step := Z.max 0 (historyStep s - 1) in
  if step =? historyStep s then Some s
  else restoreEffect (setHistoryStep step s).

(** [e.key.toLocaleLowerCase() === "z"] holds of the keys "z" and "Z". *)
Definition handleKeyDown (ctrlKey : bool) (key : string) (s : state)
  : option state :=
  if ctrlKey && (String.eqb key "z" || String.eqb key "Z") then undo s
  else Some s.

(** *** Events *)

(** A mouse event carries the cell [getCell] maps it to, and a down or a
    move the context values of the render its handler closes over. *)
Inductive event :=
  | MouseDown (e : env Hsv) (row col : Z)
  | MouseMove (e : env Hsv) (row col : Z)
  | MouseUp
  | MouseLeave
  | KeyDown (ctrlKey : bool) (key : string).

Definition step (ev : event) (s : state) : option state :=
  match ev with
  | MouseDown e row col => handleMouseDown e row col s
  | MouseMove e row col => handleMouseMove e row col s
  | MouseUp => handleMouseUp s
  | MouseLeave => Some (handleMouseLeave s)
  | KeyDown ctrlKey key => handleKeyDown ctrlKey key s
  end.

Fixpoint run (evs : list event) (s : state) : option state :=
  match evs with
  | [] => Some s
  | ev :: rest => s1 ← step ev s; run rest s1
  end.

(** A stroke: pointer-down, pointer-moves, pointer-up. *)
Definition stroke (down : env Hsv * (Z * Z))
  (moves : list (env Hsv * (Z * Z)))
  : list event :=
  MouseDown down.1 down.2.1 down.2.2
  :: ((λ m, MouseMove m.1 m.2.1 m.2.2) <$> moves) ++ [MouseUp].

Definition ctrlZ : event := KeyDown true "z".

(** *** Invariants *)

(** A grid of the resolution of [e]: an outer array of [logicHeight]
    distinct rows of [logicWidth] cells each. *)
Definition validGrid (e : env Hsv) (h : heap) (g : loc) : Prop :=
  ∃ rows m,
    getGrid h g = Some rows ∧ NoDup rows ∧
    mapM (getRow h) rows = Some m ∧
    Z.of_nat (length m) = logicHeight e ∧
    Forall (λ r, Z.of_nat (length r) = logicWidth e) m.

Definition cursorInRange (s : state) : Prop :=
  0 <= historyStep s < Z.of_nat (length (history s)).

(** No location of the grid store is a location of a history entry. *)
Definition noAlias (s : state) : Prop :=
  ∀ g, g ∈ history s →
    ∀ l, l ∈ gridLocs (mem s) (pixels s) → l ∉ gridLocs (mem s) g.

(** The grid store holds what the entry at the cursor holds. *)
Definition settled (s : state) : Prop :=
  ∃ m, grid s = Some m ∧ entry s (historyStep s) = Some m.

Record Inv (e : env Hsv) (s : state) : Prop := {
  inv_cursor : cursorInRange s;
  inv_pixels : validGrid e (mem s) (pixels s);
  inv_history : ∀ g, g ∈ history s → validGrid e (mem s) g;
  inv_entries : NoDup (history s);
  inv_alias : noAlias s
}.

(** The events whose handlers read the resolution read the one of [e]. *)
Definition sameRes (e : env Hsv) (ev : event) : Prop :=
  match ev with
  | MouseDown e' _ _ | MouseMove e' _ _ =>
      logicWidth e' = logicWidth e ∧ logicHeight e' = logicHeight e
  | _ => True
  end.

(** The states the component goes through, the resolution being fixed. *)
Definition reachable (e : env Hsv) (s : state) : Prop :=
  ∃ s0 evs, mount e = Some s0 ∧ Forall (sameRes e) evs ∧
            run evs s0 = Some s.

(** Neither the grid store nor a history entry has a hole. *)
Definition holeFree (s : state) : Prop :=
  (∀ m, grid s = Some m → noHoles m) ∧
  (∀ i m, entry s i = Some m → noHoles m).


(* =============================================================== *)
(** ** The heap: reading, copying, writing *)

(** Projections of the state after a setter. *)
Ltac state_simpl :=
  cbn [setPixels setIsDrawing setHoverPos setHistory setHistoryStep
       mem pixels history historyStep isDrawing hoverPos] in *.

Lemma getRow_lt h l cs : getRow h l = Some cs → (l < length h)%nat.
Proof.
  unfold getRow. destruct (h !! l) eqn:E; [|done].
  intros _. by eapply lookup_lt_Some.
Qed.

Lemma getGrid_lt h l rows : getGrid h l = Some rows → (l < length h)%nat.
Proof.
  unfold getGrid. destruct (h !! l) eqn:E; [|done].
  intros _. by eapply lookup_lt_Some.
Qed.

Lemma getRow_prefix h h' l cs :
  h `prefix_of` h' → getRow h l = Some cs → getRow h' l = Some cs.
Proof.
  unfold getRow. intros Hp. destruct (h !! l) as [o|] eqn:E; [|done].
  by rewrite (prefix_lookup_Some _ _ _ _ E Hp).
Qed.

Lemma getGrid_prefix h h' l rows :
  h `prefix_of` h' → getGrid h l = Some rows → getGrid h' l = Some rows.
Proof.
  unfold getGrid. intros Hp. destruct (h !! l) as [o|] eqn:E; [|done].
  by rewrite (prefix_lookup_Some _ _ _ _ E Hp).
Qed.

Lemma mapM_getRow_prefix h h' rows m :
  h `prefix_of` h' →
  mapM (getRow h) rows = Some m → mapM (getRow h') rows = Some m.
Proof.
  intros Hp. rewrite !mapM_Some. intros HF.
  eapply Forall2_impl; [exact HF|].
  intros l cs. by apply getRow_prefix.
Qed.

Lemma mapM_getRow_lt h rows m l :
  mapM (getRow h) rows = Some m → l ∈ rows → (l < length h)%nat.
Proof.
  rewrite mapM_Some. intros HF Hl.
  apply list_elem_of_lookup_1 in Hl as [i Hi].
  destruct (Forall2_lookup_l _ _ _ _ _ HF Hi) as (cs & _ & Hcs).
  by eapply getRow_lt.
Qed.

Lemma copyRows_spec rows : ∀ h m,
  mapM (getRow h) rows = Some m →
  copyRows h rows = Some (seq (length h) (length rows), h ++ (Row <$> m)).
Proof.
  induction rows as [|r rows IH]; intros h m Hm.
  - apply mapM_Some in Hm. inversion Hm; subst. simpl.
    by rewrite app_nil_r.
  - apply mapM_Some in Hm. inversion Hm as [|? cs ? m' Hr Hrest]; subst.
    apply mapM_Some in Hrest.
    cbn [copyRows]. rewrite Hr. cbn [mbind option_bind alloc].
    rewrite (IH (h ++ [Row cs]) m').
    + cbn [mbind option_bind]. rewrite length_app, Nat.add_1_r.
      rewrite <- app_assoc. reflexivity.
    + eapply mapM_getRow_prefix; [|done]. by apply prefix_app_r.
Qed.

Lemma deepCopy_spec h g rows m :
  getGrid h g = Some rows → mapM (getRow h) rows = Some m →
  deepCopy h g =
    Some ((length h + length rows)%nat,
          (h ++ (Row <$> m)) ++ [Grid (seq (length h) (length rows))]).
Proof.
  intros Hg Hm. unfold deepCopy. rewrite Hg. cbn [mbind option_bind].
  rewrite (copyRows_spec _ _ _ Hm). cbn [mbind option_bind]. unfold alloc.
  rewrite length_app, length_fmap.
  apply mapM_Some, Forall2_length in Hm. by rewrite Hm.
Qed.

Lemma readGrid_prefix h h' g m :
  h `prefix_of` h' → readGrid h g = Some m → readGrid h' g = Some m.
Proof.
  unfold readGrid. intros Hp. destruct (getGrid h g) as [rows|] eqn:Hg; [|done].
  rewrite (getGrid_prefix _ _ _ _ Hp Hg). cbn [mbind option_bind].
  by apply mapM_getRow_prefix.
Qed.

Lemma gridLocs_prefix h h' g rows :
  h `prefix_of` h' → getGrid h g = Some rows → gridLocs h' g = gridLocs h g.
Proof.
  intros Hp Hg. unfold gridLocs.
  by rewrite Hg, (getGrid_prefix _ _ _ _ Hp Hg).
Qed.

Lemma validGrid_prefix e h h' g :
  h `prefix_of` h' → validGrid e h g → validGrid e h' g.
Proof.
  intros Hp (rows & m & Hg & Hnd & Hm & Hlen & Hw).
  exists rows, m. split_and!; try done.
  - by eapply getGrid_prefix.
  - by eapply mapM_getRow_prefix.
Qed.

Lemma validGrid_sameRes e e' h g :
  logicWidth e' = logicWidth e → logicHeight e' = logicHeight e →
  validGrid e h g → validGrid e' h g.
Proof.
  intros Hw Hh (rows & m & ?). exists rows, m. by rewrite Hw, Hh.
Qed.

Lemma validGrid_read e h g :
  validGrid e h g → ∃ m, readGrid h g = Some m.
Proof.
  intros (rows & m & Hg & _ & Hm & _). exists m.
  unfold readGrid. by rewrite Hg.
Qed.

Lemma validGrid_locs_lt e h g l :
  validGrid e h g → l ∈ gridLocs h g → (l < length h)%nat.
Proof.
  intros (rows & m & Hg & _ & Hm & _). unfold gridLocs. rewrite Hg.
  cbn [default]. intros [->|Hl]%elem_of_cons.
  - by eapply getGrid_lt.
  - by eapply mapM_getRow_lt.
Qed.

(** The rows of a copy, read back. *)
Lemma mapM_getRow_copied h m k :
  mapM (getRow ((h ++ (Row <$> m)) ++ k)) (seq (length h) (length m)) = Some m.
Proof.
  apply mapM_Some, Forall2_same_length_lookup_2.
  - by rewrite length_seq.
  - intros i l cs [-> Hi]%lookup_seq Hcs. unfold getRow.
    rewrite lookup_app_l by (rewrite length_app, length_fmap; lia).
    rewrite lookup_app_r by lia.
    replace (length h + i - length h)%nat with i by lia.
    by rewrite list_lookup_fmap, Hcs.
Qed.

Lemma deepCopy_valid e h g :
  validGrid e h g →
  ∃ g' h' m,
    deepCopy h g = Some (g', h') ∧ h `prefix_of` h' ∧
    validGrid e h' g' ∧
    readGrid h g = Some m ∧ readGrid h' g' = Some m ∧
    (∀ l, l ∈ gridLocs h' g' → (length h ≤ l)%nat).
Proof.
  intros (rows & m & Hg & Hnd & Hm & Hlen & Hw).
  pose proof (deepCopy_spec _ _ _ _ Hg Hm) as Hc.
  assert (length rows = length m) as Hrm
    by (by apply mapM_Some, Forall2_length in Hm).
  set (h1 := h ++ (Row <$> m)) in *.
  assert (length h1 = (length h + length rows)%nat) as Hl1
    by (unfold h1; rewrite length_app, length_fmap; lia).
  set (rows' := seq (length h) (length rows)) in *.
  assert (getGrid (h1 ++ [Grid rows']) (length h + length rows) = Some rows')
    as Hg'.
  { unfold getGrid. rewrite <- Hl1. by rewrite list_lookup_middle. }
  assert (mapM (getRow (h1 ++ [Grid rows'])) rows' = Some m) as Hm'.
  { unfold rows', h1. rewrite Hrm. apply mapM_getRow_copied. }
  eexists _, _, m. split; [exact Hc|]. split_and!.
  - unfold h1. rewrite <- app_assoc. by apply prefix_app_r.
  - exists rows', m. split_and!; try done. apply NoDup_seq.
  - unfold readGrid. by rewrite Hg.
  - unfold readGrid. by rewrite Hg'.
  - intros l. unfold gridLocs. rewrite Hg'. cbn [default].
    intros [->|Hl]%elem_of_cons; [lia|].
    apply elem_of_seq in Hl. lia.
Qed.

Lemma rowsChanged_refl L h : rowsChanged L h h.
Proof. by split_and!. Qed.

Lemma rowsChanged_trans L h1 h2 h3 :
  rowsChanged L h1 h2 → rowsChanged L h2 h3 → rowsChanged L h1 h3.
Proof.
  intros (Hl1 & Hg1 & Hr1) (Hl2 & Hg2 & Hr2). split_and!.
  - congruence.
  - intros l. by rewrite Hg2.
  - intros l Hl. by rewrite Hr2, Hr1.
Qed.

(** Overwriting a row by a row changes the cells of that row only. *)
Lemma rowsChanged_insert L h rl cs cs' :
  getRow h rl = Some cs → rl ∈ L → rowsChanged L h (<[rl := Row cs']> h).
Proof.
  intros Hr Hin. split_and!.
  - apply length_insert.
  - intros l. unfold getGrid. destruct (decide (rl = l)) as [<-|Hne].
    + rewrite list_lookup_insert_eq by (by eapply getRow_lt).
      unfold getRow in Hr. by destruct (h !! rl) as [[]|].
    + by rewrite list_lookup_insert_ne.
  - intros l Hl. unfold getRow.
    rewrite list_lookup_insert_ne; [done|]. by intros ->.
Qed.

(** A grid none of whose rows is written keeps its place and its content. *)
Lemma rowsChanged_frame e L h h' g :
  rowsChanged L h h' → validGrid e h g →
  (∀ l, l ∈ gridLocs h g → l ∉ L) →
  validGrid e h' g ∧ readGrid h' g = readGrid h g ∧
  gridLocs h' g = gridLocs h g.
Proof.
  intros (Hlen & Hgr & Hro) (rows & m & Hg & Hnd & Hm & Hh & Hw) Hdis.
  assert (mapM (getRow h') rows = Some m) as Hm'.
  { apply mapM_Some. apply mapM_Some in Hm.
    apply Forall2_same_length_lookup_2; [by eapply Forall2_length|].
    intros i l cs Hl Hcs. rewrite Hro.
    - destruct (Forall2_lookup_l _ _ _ _ _ Hm Hl) as (cs' & ? & ?).
      congruence.
    - apply Hdis. unfold gridLocs. rewrite Hg. cbn [default].
      apply elem_of_cons. right. by eapply list_elem_of_lookup_2. }
  split_and!.
  - exists rows, m. split_and!; try done. by rewrite Hgr.
  - unfold readGrid. rewrite Hgr, Hg. cbn [mbind option_bind]. congruence.
  - unfold gridLocs. by rewrite Hgr.
Qed.

Lemma cellAt_insert m (r c : Z) cs x r' c' :
  0 <= r → 0 <= c →
  m !! Z.to_nat r = Some cs → (Z.to_nat c < length cs)%nat →
  cellAt (<[Z.to_nat r := <[Z.to_nat c := x]> cs]> m) r' c' =
    if decide ((r', c') = (r, c)) then Some x else cellAt m r' c'.
Proof.
  intros Hr Hc Hrow Hlen. unfold cellAt.
  destruct (r' <? 0) eqn:Er; [apply Z.ltb_lt in Er|apply Z.ltb_ge in Er].
  { cbn [orb]. rewrite decide_False; [done|]. intros [=]. lia. }
  destruct (c' <? 0) eqn:Ec; [apply Z.ltb_lt in Ec|apply Z.ltb_ge in Ec].
  { cbn [orb]. rewrite decide_False; [done|]. intros [=]. lia. }
  cbn [orb]. rewrite list_lookup_insert.
  assert (Z.to_nat r < length m)%nat by (by eapply lookup_lt_Some).
  destruct (decide (r' = r)) as [->|Hne].
  - rewrite decide_True by done. rewrite Hrow. cbn [mbind option_bind].
    rewrite list_lookup_insert.
    destruct (decide (c' = c)) as [->|Hnc].
    + by rewrite !decide_True.
    + rewrite !decide_False; [done| |]; [intros [=]; done|].
      intros [? _]. lia.
  - rewrite !decide_False; [done| |]; [intros [=]; done|].
    intros [? _]. lia.
Qed.

Lemma setCell_spec e h g r c v m :
  validGrid e h g → readGrid h g = Some m → inBounds e r c = true →
  ∃ h' m',
    setCell h g r c v = Some h' ∧
    rowsChanged (default [] (getGrid h g)) h h' ∧
    validGrid e h' g ∧ readGrid h' g = Some m' ∧
    ∀ r' c', cellAt m' r' c' =
      if decide ((r', c') = (r, c)) then Some (Some v) else cellAt m r' c'.
Proof.
  intros (rows & m0 & Hg & Hnd & Hm & Hh & Hw) Hread Hin.
  assert (m0 = m) as ->.
  { unfold readGrid in Hread. rewrite Hg in Hread.
    cbn [mbind option_bind] in Hread. congruence. }
  unfold inBounds in Hin. rewrite !andb_true_iff in Hin.
  destruct Hin as (((Hr0 & Hr1) & Hc0) & Hc1).
  apply Z.leb_le in Hr0, Hc0. apply Z.ltb_lt in Hr1, Hc1.
  pose proof Hm as HF. apply mapM_Some in HF.
  pose proof (Forall2_length _ _ _ HF) as Hlen.
  destruct (lookup_lt_is_Some_2 rows (Z.to_nat r)) as [rl Hrl]; [lia|].
  destruct (Forall2_lookup_l _ _ _ _ _ HF Hrl) as (cs & Hcs & Hrow).
  assert (Z.of_nat (length cs) = logicWidth e) as Hwcs
    by (by eapply (Forall_lookup_1 _ _ _ _ Hw)).
  set (cs' := <[Z.to_nat c := Some v]> cs).
  assert (setCell h g r c v = Some (<[rl := Row cs']> h)) as Hset.
  { unfold setCell. rewrite Hg. cbn [mbind option_bind].
    destruct (r <? 0) eqn:E; [apply Z.ltb_lt in E; lia|].
    rewrite Hrl. cbn [mbind option_bind]. rewrite Hrow.
    cbn [mbind option_bind].
    destruct (c <? 0) eqn:E'; [apply Z.ltb_lt in E'; lia|].
    unfold arraySet. rewrite decide_True by lia. done. }
  assert (rowsChanged rows h (<[rl := Row cs']> h)) as Hch.
  { eapply rowsChanged_insert; [done|]. by eapply list_elem_of_lookup_2. }
  set (m' := <[Z.to_nat r := cs']> m).
  assert (mapM (getRow (<[rl := Row cs']> h)) rows = Some m') as Hm'.
  { apply mapM_Some, Forall2_same_length_lookup_2.
    - unfold m'. by rewrite length_insert.
    - intros i l y Hl Hy. unfold m' in Hy. rewrite list_lookup_insert in Hy.
      destruct (decide (Z.to_nat r = i ∧ (Z.to_nat r < length m)%nat))
        as [[<- _]|Hno].
      + assert (l = rl) as -> by congruence. injection Hy as <-.
        unfold getRow. rewrite list_lookup_insert_eq; [done|].
        by eapply getRow_lt.
      + assert (i ≠ Z.to_nat r) as Hir by (intros ->; apply Hno; split; [done|lia]).
        assert (l ≠ rl) as Hlr.
        { intros ->. apply Hir. by eapply NoDup_lookup. }
        unfold getRow. rewrite list_lookup_insert_ne by done.
        destruct (Forall2_lookup_l _ _ _ _ _ HF Hl) as (y' & Hy' & Hgy).
        unfold getRow in Hgy. congruence. }
  destruct Hch as (Hl1 & Hg1 & Hr1').
  exists (<[rl := Row cs']> h), m'. rewrite Hg. cbn [default].
  split_and!; try done.
  - exists rows, m'. split_and!; try done.
    + by rewrite Hg1.
    + unfold m'. by rewrite length_insert.
    + unfold m'. apply Forall_insert; [done|]. unfold cs'.
      by rewrite length_insert.
  - unfold readGrid. rewrite Hg1, Hg. done.
  - intros r' c'. unfold m', cs'. apply cellAt_insert; try done. lia.
Qed.

Lemma stamp_spec e g cells : ∀ h m,
  validGrid e h g → readGrid h g = Some m →
  ∃ h' m',
    stamp e g cells h = Some h' ∧
    rowsChanged (default [] (getGrid h g)) h h' ∧
    validGrid e h' g ∧ readGrid h' g = Some m' ∧
    ∀ r c, cellAt m' r c =
      if decide ((r, c) ∈ cells ∧ inBounds e r c = true)
      then Some (Some (brushColor e)) else cellAt m r c.
Proof.
  induction cells as [|[r0 c0] rest IH]; intros h m Hv Hread.
  - exists h, m. by split_and!.
  - cbn [stamp]. destruct (inBounds e r0 c0) eqn:Hb.
    + destruct (setCell_spec e h g r0 c0 (brushColor e) m Hv Hread Hb)
        as (h1 & m1 & Hset & Hch1 & Hv1 & Hread1 & Hcell1).
      rewrite Hset. cbn [mbind option_bind].
      destruct (IH h1 m1 Hv1 Hread1) as (h' & m' & Hst & Hch & Hv' & Hread' & Hcell).
      assert (getGrid h1 g = getGrid h g) as Hgg by apply Hch1.
      rewrite Hgg in Hch.
      exists h', m'. split_and!; try done.
      { by eapply rowsChanged_trans. }
      intros r c. rewrite Hcell, Hcell1.
      destruct (decide ((r, c) = (r0, c0))) as [Heq|Hne].
      * injection Heq as -> ->.
        rewrite (decide_True (P := (r0, c0) ∈ (r0, c0) :: rest ∧ _));
          [by case_decide|].
        split; [apply elem_of_cons; by left|done].
      * apply decide_ext. rewrite elem_of_cons.
        split; [intros [? ?]; split; [by right|done]|].
        intros [[?|?] ?]; [done|by split].
    + cbn [mbind option_bind].
      destruct (IH h m Hv Hread) as (h' & m' & Hst & Hch & Hv' & Hread' & Hcell).
      exists h', m'. split_and!; try done.
      intros r c. rewrite Hcell. apply decide_ext.
      rewrite elem_of_cons. split; [intros [? ?]; split; [by right|done]|].
      intros [[Heq|?] ?]; [|done]. injection Heq as -> ->. congruence.
Qed.

(** A grid stored below [length h] is out of reach of writes to
    locations allocated since. *)
Lemma grid_frame e h h1 h2 L g :
  validGrid e h g → h `prefix_of` h1 → rowsChanged L h1 h2 →
  (∀ l, l ∈ L → (length h ≤ l)%nat) →
  validGrid e h2 g ∧ readGrid h2 g = readGrid h g ∧
  gridLocs h2 g = gridLocs h g.
Proof.
  intros Hv Hp Hch Hfresh.
  pose proof (validGrid_prefix _ _ _ _ Hp Hv) as Hv1.
  destruct Hv as (rows & m & Hg & Hnd & Hm & Hrest).
  assert (gridLocs h1 g = gridLocs h g) as Hl1 by (by eapply gridLocs_prefix).
  assert (readGrid h g = Some m) as Hr by (unfold readGrid; by rewrite Hg).
  assert (readGrid h1 g = readGrid h g) as Hr1
    by (rewrite Hr; by eapply readGrid_prefix).
  destruct (rowsChanged_frame e L h1 h2 g Hch Hv1) as (Hv2 & Hr2 & Hl2).
  - intros l Hl HL. apply Hfresh in HL. rewrite Hl1 in Hl.
    assert (l < length h)%nat; [|lia].
    eapply validGrid_locs_lt; [|done]. by exists rows, m.
  - split_and!; [done|congruence|congruence].
Qed.

(* =============================================================== *)
(** ** The handlers keep the invariant *)

Lemma lookupZ_elem {A} (l : list A) i x : lookupZ l i = Some x → x ∈ l.
Proof.
  unfold lookupZ. destruct (i <? 0); [done|]. apply list_elem_of_lookup_2.
Qed.

Lemma lookupZ_Some {A} (l : list A) i :
  0 <= i < Z.of_nat (length l) → ∃ x, lookupZ l i = Some x.
Proof.
  intros Hi. unfold lookupZ.
  destruct (i <? 0) eqn:E; [apply Z.ltb_lt in E; lia|].
  apply lookup_lt_is_Some_2. lia.
Qed.

(** Installing as grid store a grid allocated since [mem s], after writes
    to locations allocated since [mem s]. *)
Lemma Inv_fresh_pixels e s p h1 h' L :
  cursorInRange s →
  (∀ g, g ∈ history s → validGrid e (mem s) g) →
  NoDup (history s) →
  mem s `prefix_of` h1 → rowsChanged L h1 h' →
  (∀ l, l ∈ L → (length (mem s) ≤ l)%nat) →
  validGrid e h' p →
  (∀ l, l ∈ gridLocs h' p → (length (mem s) ≤ l)%nat) →
  Inv e (setPixels p h' s) ∧
  ∀ i, entry (setPixels p h' s) i = entry s i.
Proof.
  intros Hcur Hhist Hnd Hp Hch HL Hvp Hfresh. split.
  - split; cbn [setPixels mem pixels history historyStep]; try done.
    + intros g Hg.
      by destruct (grid_frame e (mem s) h1 h' L g (Hhist g Hg) Hp Hch HL)
        as (? & _).
    + intros g Hg l Hl Hl'.
      destruct (grid_frame e (mem s) h1 h' L g (Hhist g Hg) Hp Hch HL)
        as (_ & _ & Hlocs).
      cbn [setPixels mem pixels] in Hl, Hl'. rewrite Hlocs in Hl'.
      apply Hfresh in Hl.
      pose proof (validGrid_locs_lt _ _ _ _ (Hhist g Hg) Hl'). lia.
  - intros i. unfold entry. cbn [setPixels mem history].
    destruct (lookupZ (history s) i) as [g|] eqn:Hg; [|done].
    cbn [mbind option_bind]. apply lookupZ_elem in Hg.
    by destruct (grid_frame e (mem s) h1 h' L g (Hhist g Hg) Hp Hch HL)
      as (_ & ? & _).
Qed.

Lemma drawPixel_spec e row col s :
  Inv e s →
  ∃ s' m m',
    drawPixel e row col s = Some s' ∧ Inv e s' ∧
    history s' = history s ∧ historyStep s' = historyStep s ∧
    isDrawing s' = isDrawing s ∧ hoverPos s' = hoverPos s ∧
    (∀ i, entry s' i = entry s i) ∧
    (length (mem s) ≤ length (mem s'))%nat ∧
    grid s = Some m ∧ grid s' = Some m' ∧
    ∀ r c, cellAt m' r c =
      if decide (isGrab e = false ∧
                 (r, c) ∈ footprint row col (penSize e) ∧
                 inBounds e r c = true)
      then Some (Some (brushColor e)) else cellAt m r c.
Proof.
  intros [Hcur Hpix Hhist Hnd Halias]. unfold drawPixel.
  destruct (isGrab e) eqn:Hgrab.
  { destruct (validGrid_read _ _ _ Hpix) as [m Hm].
    exists s, m, m. split_and!; try done. }
  destruct (deepCopy_valid _ _ _ Hpix)
    as (g' & h1 & m & Hcopy & Hp & Hv1 & Hm & Hm1 & Hfresh).
  rewrite Hcopy. cbn [mbind option_bind].
  destruct (stamp_spec e g' (footprint row col (penSize e)) h1 m Hv1 Hm1)
    as (h2 & m' & Hst & Hch & Hv2 & Hm2 & Hcell).
  rewrite Hst. cbn [mbind option_bind].
  assert (gridLocs h2 g' = gridLocs h1 g') as Hlocs.
  { unfold gridLocs. f_equal. f_equal. apply Hch. }
  destruct (Inv_fresh_pixels e s g' h1 h2 _ Hcur Hhist Hnd Hp Hch) as [HI He];
    try done.
  { intros l Hl. apply Hfresh. unfold gridLocs. by apply elem_of_cons; right. }
  { intros l. rewrite Hlocs. apply Hfresh. }
  exists (setPixels g' h2 s), m, m'. split_and!; try done.
  - state_simpl. destruct Hch as (-> & _). by apply prefix_length.
  - intros r c. rewrite Hcell. apply decide_ext. by intuition.
Qed.

Lemma restoreEffect_spec e s :
  cursorInRange s →
  (∀ g, g ∈ history s → validGrid e (mem s) g) →
  NoDup (history s) →
  ∃ s' m,
    restoreEffect s = Some s' ∧
    entry s (historyStep s) = Some m ∧ grid s' = Some m ∧
    history s' = history s ∧ historyStep s' = historyStep s ∧
    isDrawing s' = isDrawing s ∧ hoverPos s' = hoverPos s ∧
    Inv e s' ∧ (∀ i, entry s' i = entry s i) ∧
    mem s `prefix_of` mem s'.
Proof.
  intros Hcur Hhist Hnd. unfold restoreEffect.
  destruct (lookupZ_Some (history s) (historyStep s) Hcur) as [g Hg].
  rewrite Hg. pose proof (lookupZ_elem _ _ _ Hg) as Hin.
  destruct (deepCopy_valid _ _ _ (Hhist g Hin))
    as (p & h1 & m & Hcopy & Hp & Hv1 & Hm & Hm1 & Hfresh).
  rewrite Hcopy. cbn [mbind option_bind].
  destruct (Inv_fresh_pixels e s p h1 h1 [] Hcur Hhist Hnd Hp) as [HI He];
    try done.
  { intros l Hl. by apply elem_of_nil in Hl. }
  exists (setPixels p h1 s), m. split_and!; try done.
  unfold entry. rewrite Hg. done.
Qed.

Lemma Inv_sameRes e e' s :
  logicWidth e' = logicWidth e → logicHeight e' = logicHeight e →
  Inv e s → Inv e' s.
Proof.
  intros Hw Hh [Hcur Hpix Hhist Hnd Halias]. split; try done.
  - by eapply validGrid_sameRes.
  - intros g Hg. eapply validGrid_sameRes; [done|done|]. by apply Hhist.
Qed.

Lemma settled_intro s m :
  grid s = Some m → entry s (historyStep s) = Some m → settled s.
Proof. intros. by exists m. Qed.

Lemma mouseUp_spec e s :
  Inv e s →
  ∃ s' snap m,
    handleMouseUp s = Some s' ∧ grid s = Some m ∧
    history s' = take (Z.to_nat (historyStep s + 1)) (history s) ++ [snap] ∧
    (∀ l, l ∈ gridLocs (mem s') snap → (length (mem s) ≤ l)%nat) ∧
    historyStep s' = historyStep s + 1 ∧
    isDrawing s' = false ∧ hoverPos s' = hoverPos s ∧
    Inv e s' ∧ grid s' = Some m ∧
    entry s' (historyStep s + 1) = Some m ∧
    (∀ i, 0 <= i <= historyStep s → entry s' i = entry s i).
Proof.
  intros [Hcur Hpix Hhist Hnd Halias]. unfold handleMouseUp.
  destruct (deepCopy_valid _ _ _ Hpix)
    as (n & h1 & m & Hcopy & Hp & Hv1 & Hm & Hm1 & Hfresh).
  state_simpl. rewrite Hcopy. cbn [mbind option_bind].
  destruct Hcur as [Hc0 Hc1].
  assert (slice0 (history s) (historyStep s + 1)
          = take (Z.to_nat (historyStep s + 1)) (history s)) as ->.
  { unfold slice0. destruct (historyStep s + 1 <? 0) eqn:E; [|done].
    apply Z.ltb_lt in E. lia. }
  set (kept := take (Z.to_nat (historyStep s + 1)) (history s)).
  assert (length kept = Z.to_nat (historyStep s + 1)) as Hlk
    by (unfold kept; rewrite length_take; lia).
  match goal with |- context [restoreEffect ?x] => set (s2 := x) end.
  assert (cursorInRange s2) as Hcur2.
  { unfold cursorInRange, s2. state_simpl.
    rewrite length_app, Hlk. cbn [length]. lia. }
  assert (∀ g, g ∈ history s2 → validGrid e (mem s2) g) as Hhist2.
  { unfold s2. state_simpl. intros g [Hg|Hg]%elem_of_app.
    - eapply validGrid_prefix; [done|]. apply Hhist.
      unfold kept in Hg. apply elem_of_take in Hg as (i & Hi & _).
      by eapply list_elem_of_lookup_2.
    - apply list_elem_of_singleton in Hg as ->. done. }
  assert (∀ i, 0 <= i <= historyStep s → entry s2 i = entry s i) as Hold.
  { intros i Hi. unfold entry, s2, lookupZ. state_simpl.
    destruct (i <? 0) eqn:E; [apply Z.ltb_lt in E; lia|].
    rewrite lookup_app_l by lia. unfold kept.
    rewrite lookup_take_lt by lia.
    destruct (history s !! Z.to_nat i) as [g|] eqn:Hg; [|done].
    cbn [mbind option_bind].
    destruct (validGrid_read e (mem s) g) as [mg Hmg].
    { apply Hhist. by eapply list_elem_of_lookup_2. }
    rewrite Hmg. by eapply readGrid_prefix. }
  assert (entry s2 (historyStep s + 1) = Some m) as Hnew.
  { unfold entry, s2, lookupZ. state_simpl.
    destruct (historyStep s + 1 <? 0) eqn:E; [apply Z.ltb_lt in E; lia|].
    rewrite <- Hlk. rewrite list_lookup_middle by done. done. }
  assert (NoDup (history s2)) as Hnd2.
  { unfold s2. state_simpl. apply NoDup_app. split_and!.
    - unfold kept. eapply sublist_NoDup; [done|apply sublist_take].
    - intros g Hg ->%list_elem_of_singleton.
      unfold kept in Hg. apply elem_of_take in Hg as (i & Hi & _).
      assert (n < length (mem s))%nat; [|specialize (Hfresh n); unfold gridLocs in Hfresh].
      + eapply validGrid_locs_lt; [apply Hhist; by eapply list_elem_of_lookup_2|].
        unfold gridLocs. apply elem_of_cons. by left.
      + assert (length (mem s) ≤ n)%nat; [|lia].
        apply Hfresh. apply elem_of_cons. by left.
    - apply NoDup_singleton. }
  destruct (restoreEffect_spec e s2 Hcur2 Hhist2 Hnd2)
    as (s' & m2 & Hre & Hent & Hgrid & Hh' & Hs' & Hd' & Hv' & HI & He & Hp').
  assert (m2 = m) as ->.
  { unfold s2 in Hent, Hnew. state_simpl. congruence. }
  unfold s2 in Hh', Hs', Hd', Hv'. state_simpl.
  exists s', n, m. split_and!; try done.
  - intros l Hl. apply Hfresh. unfold s2 in Hp'. state_simpl.
    destruct Hv1 as (rows & ? & Hgn & _).
    by rewrite (gridLocs_prefix h1 (mem s') n rows) in Hl.
  - by rewrite He.
  - intros i Hi. by rewrite He, Hold.
Qed.

Lemma undo_spec e s :
  Inv e s →
  ∃ s',
    undo s = Some s' ∧
    historyStep s' = Z.max 0 (historyStep s - 1) ∧
    history s' = history s ∧
    isDrawing s' = isDrawing s ∧ hoverPos s' = hoverPos s ∧
    Inv e s' ∧ (∀ i, entry s' i = entry s i) ∧
    (historyStep s = 0 → s' = s) ∧
    (0 < historyStep s →
     ∃ m, entry s (historyStep s - 1) = Some m ∧ grid s' = Some m).
Proof.
  intros HI. pose proof HI as [Hcur Hpix Hhist Hnd Halias]. unfold undo.
  destruct Hcur as [Hc0 Hc1].
  destruct (Z.max 0 (historyStep s - 1) =? historyStep s) eqn:E.
  - apply Z.eqb_eq in E. exists s. split_and!; try done. lia.
  - apply Z.eqb_neq in E.
    set (s1 := setHistoryStep (Z.max 0 (historyStep s - 1)) s).
    destruct (restoreEffect_spec e s1)
      as (s' & m & Hre & Hent & Hgrid & Hh' & Hs' & Hd' & Hv' & HI' & He & _).
    { unfold cursorInRange, s1. state_simpl. lia. }
    { done. }
    { done. }
    unfold s1 in Hent, Hh', Hs', Hd', Hv', He. state_simpl.
    exists s'. split_and!; try done.
    + lia.
    + intros _. exists m. split; [|done].
      replace (historyStep s - 1) with (Z.max 0 (historyStep s - 1)) by lia.
      done.
Qed.

Lemma mount_spec e s :
  mount e = Some s →
  Inv e s ∧ settled s ∧ historyStep s = 0 ∧ length (history s) = 1%nat ∧
  isDrawing s = false ∧ hoverPos s = None ∧
  grid s = Some (replicate (Z.to_nat (logicHeight e))
                   (replicate (Z.to_nat (logicWidth e))
                      (Some "transparent"%string))).
Proof.
  unfold mount, arrayLength.
  destruct (negb ((0 <=? logicHeight e) && (logicHeight e <? 2 ^ 32))
            || ((0 <? logicHeight e)
                && negb ((0 <=? logicWidth e) && (logicWidth e <? 2 ^ 32))))
    eqn:Hneg; [done|].
  apply orb_false_iff in Hneg as [Hh Hw].
  assert (0 <= logicHeight e) as Hhge by lia. clear Hh.
  assert (0 < logicHeight e → 0 <= logicWidth e) as Hwge by lia. clear Hw.
  set (n := Z.to_nat (logicHeight e)).
  set (cs := replicate (Z.to_nat (logicWidth e)) (Some "transparent"%string)).
  set (m := replicate n cs).
  set (h0 := replicate n (Row cs) ++ [Grid (seq 0 n)]).
  assert (length m = n) as Hlm by apply length_replicate.
  assert (h0 = ([] ++ (Row <$> m)) ++ [Grid (seq 0 n)]) as Hh0
    by (unfold h0, m; by rewrite fmap_replicate).
  assert (getGrid h0 n = Some (seq 0 n)) as Hg0.
  { pose proof (list_lookup_middle (replicate n (Row cs)) []
                  (Grid (seq 0 n)) n) as Hmid.
    unfold getGrid, h0. rewrite Hmid; [done|].
    by rewrite length_replicate. }
  assert (mapM (getRow h0) (seq 0 n) = Some m) as Hm0.
  { pose proof (mapM_getRow_copied [] m [Grid (seq 0 n)]) as Hc.
    rewrite Hlm in Hc. by rewrite Hh0. }
  assert (validGrid e h0 n) as Hv0.
  { exists (seq 0 n), m. split_and!; try done.
    - apply NoDup_seq.
    - rewrite Hlm. unfold n. lia.
    - unfold m. destruct n as [|n'] eqn:En; [by constructor|].
      apply Forall_replicate. unfold cs. rewrite length_replicate.
      unfold n in En. lia. }
  destruct (deepCopy_valid _ _ _ Hv0)
    as (initial & h1 & m' & Hcopy & Hp & Hv1 & Hm & Hm1 & Hfresh).
  rewrite Hcopy. cbn [mbind option_bind]. intros [= <-].
  assert (readGrid h0 n = Some m) as Hr0.
  { unfold readGrid. by rewrite Hg0. }
  assert (m' = m) as -> by congruence.
  state_simpl. split_and!; try done.
  - split; state_simpl.
    + unfold cursorInRange. state_simpl. cbn [length]. lia.
    + by eapply validGrid_prefix.
    + intros g Hg. apply list_elem_of_singleton in Hg as ->. done.
    + apply NoDup_singleton.
    + intros g Hg l Hl Hl'. state_simpl.
      apply list_elem_of_singleton in Hg as ->.
      apply Hfresh in Hl'.
      rewrite (gridLocs_prefix h0 h1 n (seq 0 n)) in Hl by done.
      assert (l < length h0)%nat; [|lia].
      by eapply validGrid_locs_lt.
  - exists m. split.
    + unfold grid. state_simpl. by eapply readGrid_prefix.
    + unfold entry, lookupZ. state_simpl. done.
  - unfold grid. state_simpl. by eapply readGrid_prefix.
Qed.

(* ================================================================= *)
(** ** Events and traces *)

Lemma run_app evs1 evs2 s :
  run (evs1 ++ evs2) s = s1 ← run evs1 s; run evs2 s1.
Proof.
  revert s. induction evs1 as [|ev evs1 IH]; intros s; [done|].
  cbn [run app]. destruct (step ev s) as [s1|]; [|done].
  cbn [mbind option_bind]. apply IH.
Qed.

Lemma mouseDown_spec e e' row col s :
  logicWidth e' = logicWidth e → logicHeight e' = logicHeight e →
  Inv e s →
  ∃ s', handleMouseDown e' row col s = Some s' ∧ Inv e s' ∧
        history s' = history s ∧ historyStep s' = historyStep s ∧
        (∀ i, entry s' i = entry s i) ∧
        (length (mem s) ≤ length (mem s'))%nat.
Proof.
  intros Hw Hh HI. unfold handleMouseDown.
  destruct (drawPixel_spec e' row col s)
    as (s1 & m & m' & Hd & HI1 & Hh1 & Hs1 & _ & _ & He1 & Hlen & _).
  { by eapply Inv_sameRes. }
  rewrite Hd. cbn [mbind option_bind].
  exists (setIsDrawing true s1). split_and!; try done.
  apply (Inv_sameRes e' e) in HI1; [|done|done].
  destruct HI1 as [Hcur Hpix Hhist Hnd Halias]. by split.
Qed.

Lemma mouseMove_spec e e' row col s :
  logicWidth e' = logicWidth e → logicHeight e' = logicHeight e →
  Inv e s →
  ∃ s', handleMouseMove e' row col s = Some s' ∧ Inv e s' ∧
        history s' = history s ∧ historyStep s' = historyStep s ∧
        (∀ i, entry s' i = entry s i) ∧
        (length (mem s) ≤ length (mem s'))%nat.
Proof.
  intros Hw Hh HI. unfold handleMouseMove.
  assert (Inv e (setHoverPos (Some (row, col)) s)) as HI0.
  { destruct HI as [Hcur Hpix Hhist Hnd Halias]. by split. }
  destruct (isDrawing s).
  - destruct (drawPixel_spec e' row col (setHoverPos (Some (row, col)) s))
      as (s1 & m & m' & Hd & HI1 & Hh1 & Hs1 & _ & _ & He1 & Hlen & _).
    { by eapply Inv_sameRes. }
    exists s1. split_and!; try done.
    by apply (Inv_sameRes e' e) in HI1.
  - by eexists.
Qed.

(** Every event is handled without an exception and keeps the invariant. *)
Lemma step_spec e ev s :
  sameRes e ev → Inv e s → ∃ s', step ev s = Some s' ∧ Inv e s'.
Proof.
  intros Hres HI. destruct ev as [e' row col|e' row col| | |ctrl key]; cbn [step].
  - destruct Hres as [Hw Hh].
    destruct (mouseDown_spec e e' row col s Hw Hh HI) as (s' & ? & ? & _).
    by exists s'.
  - destruct Hres as [Hw Hh].
    destruct (mouseMove_spec e e' row col s Hw Hh HI) as (s' & ? & ? & _).
    by exists s'.
  - destruct (mouseUp_spec e s HI)
      as (s' & snap & m & ? & _ & _ & _ & _ & _ & _ & ? & _).
    by exists s'.
  - eexists. split; [done|].
    destruct HI as [Hcur Hpix Hhist Hnd Halias]. by split.
  - unfold handleKeyDown.
    destruct (ctrl && (String.eqb key "z" || String.eqb key "Z")).
    + destruct (undo_spec e s HI) as (s' & ? & _ & _ & _ & _ & ? & _).
      by exists s'.
    + by exists s.
Qed.

Lemma run_spec e evs : ∀ s,
  Forall (sameRes e) evs → Inv e s → ∃ s', run evs s = Some s' ∧ Inv e s'.
Proof.
  induction evs as [|ev evs IH]; intros s Hres HI; [by exists s|].
  apply Forall_cons in Hres as [Hev Hres]. cbn [run].
  destruct (step_spec e ev s Hev HI) as (s1 & -> & HI1).
  cbn [mbind option_bind]. by apply IH.
Qed.

Lemma reachable_Inv e s : reachable e s → Inv e s.
Proof.
  intros (s0 & evs & Hm & Hres & Hrun).
  destruct (mount_spec e s0 Hm) as (HI0 & _).
  destruct (run_spec e evs s0 Hres HI0) as (s' & Hrun' & HI).
  congruence.
Qed.

(** Pointer-moves never touch the history. *)
Lemma moves_spec e (moves : list (env Hsv * (Z * Z))) : ∀ s,
  Forall (λ m, logicWidth m.1 = logicWidth e ∧
               logicHeight m.1 = logicHeight e) moves →
  Inv e s →
  ∃ s', run ((λ m, MouseMove m.1 m.2.1 m.2.2) <$> moves) s = Some s' ∧
        Inv e s' ∧ history s' = history s ∧
        historyStep s' = historyStep s ∧ (∀ i, entry s' i = entry s i) ∧
        (length (mem s) ≤ length (mem s'))%nat.
Proof.
  induction moves as [|[e' [row col]] moves IH]; intros s Hres HI;
    [by exists s|].
  apply Forall_cons in Hres as [[Hw Hh] Hres]. cbn [fmap list_fmap run step].
  cbn [fst snd] in *.
  destruct (mouseMove_spec e e' row col s Hw Hh HI)
    as (s1 & -> & HI1 & Hh1 & Hs1 & He1 & Hl1).
  cbn [mbind option_bind].
  destruct (IH s1 Hres HI1) as (s' & Hrun & HI' & Hh' & Hs' & He' & Hl').
  exists s'. split_and!; try done; try congruence; try lia.
Qed.

(** Undoing [k] times. *)
Lemma undos_spec e k : ∀ s,
  Inv e s →
  ∃ s', run (replicate k ctrlZ) s = Some s' ∧ Inv e s' ∧
        history s' = history s ∧
        historyStep s' = Z.max 0 (historyStep s - Z.of_nat k) ∧
        (∀ i, entry s' i = entry s i) ∧
        (settled s → settled s').
Proof.
  induction k as [|k IH]; intros s HI.
  - exists s. split_and!; try done.
    destruct HI as [[? ?] _ _ _ _]. lia.
  - cbn [replicate run step ctrlZ]. unfold handleKeyDown.
    cbn [andb orb String.eqb Ascii.eqb Bool.eqb].
    destruct (undo_spec e s HI)
      as (s1 & -> & Hs1 & Hh1 & _ & _ & HI1 & He1 & Hzero & Hpos).
    cbn [mbind option_bind].
    destruct (IH s1 HI1) as (s' & Hrun & HI' & Hh' & Hs' & He' & Hset').
    exists s'. split_and!; try done; try congruence.
    + rewrite Hs', Hs1. lia.
    + intros Hset. apply Hset'.
      destruct HI as [[Hc0 Hc1] _ _ _ _].
      destruct (decide (historyStep s = 0)) as [Hz|Hnz].
      * by rewrite (Hzero Hz).
      * destruct Hpos as (m & Hent & Hgrid); [lia|].
        apply (settled_intro s1 m); [done|].
        rewrite He1, Hs1.
        replace (Z.max 0 (historyStep s - 1)) with (historyStep s - 1) by lia.
        done.
Qed.

(* ================================================================= *)
(** ** The brush footprint *)

(** C10: with a pen of size 1 the footprint is exactly the centre cell; the
    corner test is not consulted ([penSize > 2] fails first), so this holds
    whatever [isEdge] computes. *)
Theorem footprint_pen1 (row col : Z) :
  footprint row col 1 = [(row, col)].
Proof.
  assert (offsets 1 = [(0, 0)]) as Hoff by reflexivity.
  unfold footprint. rewrite Hoff. cbn [fmap list_fmap fst snd].
  by rewrite !Z.add_0_r.
Qed.

Lemma elem_of_range (n x : Z) : x ∈ range n ↔ 0 <= x < n.
Proof.
  unfold range. rewrite list_elem_of_fmap. split.
  - intros (k & -> & Hk%elem_of_seq). lia.
  - intros Hx. exists (Z.to_nat x). split; [lia|]. apply elem_of_seq. lia.
Qed.

(** The offsets the loops visit: the square, less what the corner test
    removes from a pen larger than 2. *)
Lemma elem_of_offsets (n dy dx : Z) :
  (dy, dx) ∈ offsets n ↔
  0 <= dy < n ∧ 0 <= dx < n ∧ (n >? 2) && isEdge n dy dx = false.
Proof.
  unfold offsets. rewrite list_elem_of_bind. split.
  - intros (y & Hin & Hy%elem_of_range).
    apply list_elem_of_bind in Hin as (x & Hin & Hx%elem_of_range).
    destruct ((n >? 2) && isEdge n y x) eqn:E.
    + by apply elem_of_nil in Hin.
    + apply list_elem_of_singleton in Hin. injection Hin as -> ->. done.
  - intros (Hy & Hx & E). exists dy. split; [|by apply elem_of_range].
    apply list_elem_of_bind. exists dx. split; [|by apply elem_of_range].
    rewrite E. by apply list_elem_of_singleton.
Qed.

Lemma elem_of_footprint (row col n r c : Z) :
  (r, c) ∈ footprint row col n ↔
  ∃ dy dx, r = row + dy ∧ c = col + dx ∧ (dy, dx) ∈ offsets n.
Proof.
  unfold footprint. rewrite list_elem_of_fmap. split.
  - intros ([dy dx] & Heq & Hin). injection Heq as -> ->. by exists dy, dx.
  - intros (dy & dx & -> & -> & Hin). by exists (dy, dx).
Qed.

Lemma validGrid_shape e h g m :
  validGrid e h g → readGrid h g = Some m →
  Z.of_nat (length m) = logicHeight e.
Proof.
  intros (rows & m0 & Hg & _ & Hm & Hlen & _). unfold readGrid.
  rewrite Hg. cbn [mbind option_bind]. congruence.
Qed.

(** Two grid contents with as many rows and the same cells are equal. *)
Lemma cellAt_ext (m m' : list (list (option string))) :
  length m = length m' →
  (∀ r c, cellAt m' r c = cellAt m r c) → m' = m.
Proof.
  intros Hlen Hcell. apply list_eq. intros i.
  destruct (m !! i) as [row|] eqn:Hrow.
  - destruct (lookup_lt_is_Some_2 m' i) as [row' Hrow'].
    { rewrite <- Hlen. by eapply lookup_lt_Some. }
    rewrite Hrow'. f_equal. apply list_eq. intros j.
    specialize (Hcell (Z.of_nat i) (Z.of_nat j)). unfold cellAt in Hcell.
    destruct (Z.of_nat i <? 0) eqn:Ei; [apply Z.ltb_lt in Ei; lia|].
    destruct (Z.of_nat j <? 0) eqn:Ej; [apply Z.ltb_lt in Ej; lia|].
    cbn [orb] in Hcell. rewrite !Nat2Z.id, Hrow, Hrow' in Hcell. done.
  - apply lookup_ge_None. rewrite <- Hlen. by apply lookup_ge_None.
Qed.

(* ================================================================= *)
(** ** Stamping *)

(** C6, as the code has it: a stamp never raises; a footprint cell outside
    the grid is skipped; a cell outside the footprint keeps its colour and a
    footprint cell inside the grid takes the brush colour.  The grid is left
    as it was when no footprint cell is inside it, as with a pen of size 1
    at a cell outside the grid. *)
Theorem drawPixel_bounds e row col s :
  Inv e s →
  ∃ s' m m',
    drawPixel e row col s = Some s' ∧ grid s = Some m ∧ grid s' = Some m' ∧
    (∀ r c, (r, c) ∉ footprint row col (penSize e) ∨ inBounds e r c = false →
            cellAt m' r c = cellAt m r c) ∧
    (∀ r c, isGrab e = false → (r, c) ∈ footprint row col (penSize e) →
            inBounds e r c = true →
            cellAt m' r c = Some (Some (brushColor e))) ∧
    ((∀ r c, (r, c) ∈ footprint row col (penSize e) →
             inBounds e r c = false) → m' = m) ∧
    (penSize e = 1 → inBounds e row col = false → m' = m).
Proof.
  intros HI.
  destruct (drawPixel_spec e row col s HI)
    as (s' & m & m' & Hd & HI' & _ & _ & _ & _ & _ & _ & Hm & Hm' & Hcell).
  assert (length m = length m') as Hlen.
  { pose proof (validGrid_shape e _ _ m (inv_pixels _ _ HI) Hm).
    pose proof (validGrid_shape e _ _ m' (inv_pixels _ _ HI') Hm'). lia. }
  assert ((∀ r c, (r, c) ∈ footprint row col (penSize e) →
                  inBounds e r c = false) → m' = m) as Hout.
  { intros Hall. apply cellAt_ext; [done|]. intros r c. rewrite Hcell.
    rewrite decide_False; [done|]. intros (_ & Hin & Hb).
    rewrite (Hall r c Hin) in Hb. done. }
  exists s', m, m'. split_and!; try done.
  - intros r c Hno. rewrite Hcell. rewrite decide_False; [done|].
    intros (_ & Hin & Hb). destruct Hno as [Hno|Hno]; [done|congruence].
  - intros r c Hg Hin Hb. rewrite Hcell. by rewrite decide_True.
  - intros Hpen Hb. apply Hout. intros r c. rewrite Hpen.
    intros (dy & dx & -> & -> & Hin)%elem_of_footprint.
    apply elem_of_offsets in Hin as (Hy & Hx & _).
    replace dy with 0 by lia. replace dx with 0 by lia.
    by rewrite !Z.add_0_r.
Qed.

(* ================================================================= *)
(** ** The ghost brush *)

Lemma ghostCells_comp e cells : ∀ w,
  comp (fold_left (ghostCell e) cells w) = comp w.
Proof.
  induction cells as [|rc cells IH]; intros w; [done|].
  cbn [fold_left]. rewrite IH. unfold ghostCell.
  by destruct (inBounds e rc.1 rc.2).
Qed.

(** C9: drawing the ghost brush leaves the component's state (the grid
    store, the heap it lives in and the history) as it was, and draws
    nothing when there is no hover position, in grab mode, or while a stroke
    is in progress. *)
Theorem drawGhostBrush_frame e w :
  comp (drawGhostBrush e w) = comp w ∧
  (hoverPos (comp w) = None ∨ isGrab e = true ∨ isDrawing (comp w) = true →
   drawGhostBrush e w = w).
Proof.
  unfold drawGhostBrush. split.
  - destruct (hoverPos (comp w)) as [[row col]|]; [|done].
    destruct (negb (isDrawing (comp w)) && negb (isGrab e)); [|done].
    by rewrite ghostCells_comp.
  - intros [Hh|[Hg|Hd]].
    + by rewrite Hh.
    + rewrite Hg, andb_false_r. by destruct (hoverPos (comp w)) as [[??]|].
    + rewrite Hd. by destruct (hoverPos (comp w)) as [[??]|].
Qed.

(* ================================================================= *)
(** ** Commit and undo *)

Lemma handleKeyDown_ctrlZ s : step ctrlZ s = undo s.
Proof. reflexivity. Qed.

(** What a whole stroke does to the history. *)
Lemma stroke_spec e s down moves :
  Inv e s → Forall (sameRes e) (stroke down moves) →
  ∃ s' snap m,
    run (stroke down moves) s = Some s' ∧ Inv e s' ∧
    history s' = take (Z.to_nat (historyStep s + 1)) (history s) ++ [snap] ∧
    (∀ l, l ∈ gridLocs (mem s') snap → (length (mem s) ≤ l)%nat) ∧
    historyStep s' = historyStep s + 1 ∧
    grid s' = Some m ∧ entry s' (historyStep s + 1) = Some m ∧
    (∀ i, 0 <= i <= historyStep s → entry s' i = entry s i).
Proof.
  intros HI Hres. unfold stroke in *.
  apply Forall_cons in Hres as [[Hw Hh] Hres].
  apply Forall_app in Hres as [Hmoves _].
  assert (Forall (λ m, logicWidth m.1 = logicWidth e ∧
                       logicHeight m.1 = logicHeight e) moves) as Hmv.
  { apply Forall_forall. intros mv Hin.
    rewrite Forall_forall in Hmoves.
    apply (Hmoves (MouseMove mv.1 mv.2.1 mv.2.2)).
    by apply (list_elem_of_fmap_2 (λ m, MouseMove m.1 m.2.1 m.2.2)). }
  cbn [run step].
  destruct (mouseDown_spec e _ down.2.1 down.2.2 s Hw Hh HI)
    as (s1 & -> & HI1 & Hh1 & Hs1 & He1 & Hl1).
  cbn [mbind option_bind]. rewrite run_app.
  destruct (moves_spec e moves s1 Hmv HI1)
    as (s2 & -> & HI2 & Hh2 & Hs2 & He2 & Hl2).
  cbn [mbind option_bind run step].
  destruct (mouseUp_spec e s2 HI2)
    as (s3 & snap & m & -> & Hm2 & Hh3 & Hfr & Hs3 & _ & _ & HI3 & Hg3 & Hn3
        & Ho3).
  cbn [mbind option_bind].
  exists s3, snap, m. rewrite Hs2, Hs1, Hh2, Hh1 in *. split_and!; try done.
  - intros l Hl. apply Hfr in Hl. lia.
  - intros i Hi. by rewrite Ho3, He2, He1.
Qed.

Lemma entry_last s kept snap i :
  history s = kept ++ [snap] → Z.of_nat (length kept) = i →
  entry s i = readGrid (mem s) snap.
Proof.
  intros Hh <-. unfold entry, lookupZ. rewrite Hh.
  destruct (Z.of_nat (length kept) <? 0) eqn:E; [apply Z.ltb_lt in E; lia|].
  rewrite Nat2Z.id, list_lookup_middle by done. done.
Qed.

Lemma length_kept s :
  cursorInRange s →
  Z.of_nat (length (take (Z.to_nat (historyStep s + 1)) (history s)))
  = historyStep s + 1.
Proof. intros [? ?]. rewrite length_take. lia. Qed.

(** A location allocated since [mem s] is none of the history entries. *)
Lemma fresh_not_entry e s snap :
  Inv e s → (length (mem s) ≤ snap)%nat → snap ∉ history s.
Proof.
  intros HI Hfresh Hin.
  assert (snap < length (mem s))%nat; [|lia].
  eapply validGrid_locs_lt; [by apply (inv_history _ _ HI)|].
  unfold gridLocs. apply elem_of_cons. by left.
Qed.

(** C5: a pointer-up commits whatever the Drawing flag says: it keeps the
    entries up to the cursor, appends a snapshot of the grid as it is and
    moves the cursor onto it; the flag is never read, so a pointer-up that
    no pointer-down preceded records the unchanged grid all the same. *)
Theorem mouseUp_commits_unconditionally e s :
  Inv e s →
  ∃ s' snap,
    handleMouseUp s = Some s' ∧
    history s' = take (Z.to_nat (historyStep s + 1)) (history s) ++ [snap] ∧
    Z.of_nat (length (history s')) = historyStep s + 2 ∧
    historyStep s' = historyStep s + 1 ∧
    readGrid (mem s') snap = grid s ∧ grid s' = grid s ∧
    isDrawing s' = false ∧
    ∀ b, handleMouseUp (setIsDrawing b s) = handleMouseUp s.
Proof.
  intros HI.
  destruct (mouseUp_spec e s HI)
    as (s' & snap & m & Hup & Hm & Hh & Hfr & Hs & Hd & _ & HI' & Hg & Hn & _).
  pose proof (length_kept s (inv_cursor _ _ HI)) as Hlk.
  exists s', snap. split_and!; try done.
  - rewrite Hh, length_app. cbn [length]. lia.
  - rewrite <- (entry_last s' _ snap (historyStep s + 1) Hh Hlk). congruence.
  - congruence.
Qed.

(** C8: undo moves the cursor to [max 0 (cursor - 1)] and leaves the
    history alone, the list of entries and what each entry holds.  When the
    cursor moves, the grid store is replaced by what the entry below the old
    cursor held before the undo, which is the entry at the new cursor; at
    cursor 0 nothing changes, the state is returned as it is.  No case
    raises. *)
Theorem undo_cursor_and_grid e s :
  Inv e s →
  ∃ s',
    undo s = Some s' ∧ handleKeyDown true "z" s = Some s' ∧
    historyStep s' = Z.max 0 (historyStep s - 1) ∧
    history s' = history s ∧
    (0 < historyStep s →
     ∃ m, entry s' (historyStep s') = Some m ∧ grid s' = Some m) ∧
    (historyStep s = 0 → s' = s) ∧
    (∀ i, entry s' i = entry s i) ∧
    (0 < historyStep s →
     ∃ m, entry s (historyStep s - 1) = Some m ∧ grid s' = Some m) ∧
    isDrawing s' = isDrawing s ∧ hoverPos s' = hoverPos s.
Proof.
  intros HI.
  destruct (undo_spec e s HI)
    as (s' & Hu & Hs & Hh & Hd & Hv & HI' & He & Hzero & Hpos).
  exists s'. split_and!; try done.
  intros Hlt. destruct (Hpos Hlt) as (m & Hent & Hg). exists m.
  split; [|done]. rewrite He, Hs.
  replace (Z.max 0 (historyStep s - 1)) with (historyStep s - 1) by lia.
  done.
Qed.

(** C2, as the code has it: from a state in which the grid store holds what
    the entry at the cursor holds, a stroke (pointer-down, pointer-moves,
    pointer-up) followed by one undo runs without an exception and leaves
    the grid store with the content it had before the stroke, and the
    cursor where it was. *)
Theorem stroke_undo_roundtrip e s down moves :
  Inv e s → settled s → Forall (sameRes e) (stroke down moves) →
  ∃ s', run (stroke down moves ++ [ctrlZ]) s = Some s' ∧
        grid s' = grid s ∧ historyStep s' = historyStep s.
Proof.
  intros HI (m & Hgrid & Hent) Hres.
  destruct (stroke_spec e s down moves HI Hres)
    as (s1 & snap & m1 & Hrun & HI1 & Hh1 & _ & Hs1 & _ & _ & Hold).
  rewrite run_app, Hrun. cbn [mbind option_bind run].
  rewrite handleKeyDown_ctrlZ.
  destruct (undo_spec e s1 HI1)
    as (s2 & -> & Hs2 & _ & _ & _ & _ & _ & _ & Hpos).
  pose proof (inv_cursor _ _ HI) as [Hc0 Hc1].
  destruct Hpos as (m2 & Hent2 & Hg2); [lia|].
  exists s2. cbn [mbind option_bind]. split_and!; [done| |lia].
  rewrite Hs1 in Hent2. replace (historyStep s + 1 - 1) with (historyStep s)
    in Hent2 by lia.
  rewrite Hold in Hent2 by lia. congruence.
Qed.

(** C3: a commit keeps the entries at indices 0 to the cursor, each
    holding what it held, appends a snapshot stored at new locations whose
    content is the grid's, and puts the cursor on it, the last index; no
    entry that was beyond the cursor is in the history any more.  Hence
    after [k] undos and a stroke, the history is the old one cut after the
    cursor [c] the undos led to, plus the snapshot of the grid the stroke
    left; the entries up to [c] hold what they held; and however many undos
    follow, the history stays so, the cursor is [max 0 (c + 1 - j)], within
    it, the grid store holds the entry at the cursor, and no entry that was
    beyond [c] is in the history. *)
Theorem commit_truncates_history e s :
  Inv e s →
  (∃ s' snap,
     handleMouseUp s = Some s' ∧
     history s' = take (Z.to_nat (historyStep s + 1)) (history s) ++ [snap] ∧
     (∀ l, l ∈ gridLocs (mem s') snap → (length (mem s) ≤ l)%nat) ∧
     readGrid (mem s') snap = grid s ∧
     historyStep s' = historyStep s + 1 ∧
     historyStep s' = Z.of_nat (length (history s')) - 1 ∧
     (∀ i, 0 <= i <= historyStep s → entry s' i = entry s i) ∧
     entry s' (historyStep s') = grid s ∧
     (∀ i g, historyStep s < Z.of_nat i → history s !! i = Some g →
             g ∉ history s') ∧
     grid s' = grid s) ∧
  (∀ k down moves j,
     Forall (sameRes e) (stroke down moves) →
     let c := Z.max 0 (historyStep s - Z.of_nat k) in
     ∃ s3 snap,
       run (replicate k ctrlZ ++ stroke down moves ++ replicate j ctrlZ) s
         = Some s3 ∧
       history s3 = take (Z.to_nat (c + 1)) (history s) ++ [snap] ∧
       0 <= historyStep s3 <= c + 1 ∧ settled s3 ∧
       (∀ i g, c < Z.of_nat i → history s !! i = Some g → g ∉ history s3) ∧
       (∀ i, 0 <= i <= c → entry s3 i = entry s i) ∧
       historyStep s3 = Z.max 0 (c + 1 - Z.of_nat j) ∧
       ∃ s2, run (replicate k ctrlZ ++ stroke down moves) s = Some s2 ∧
             run (replicate j ctrlZ) s2 = Some s3 ∧
             entry s3 (c + 1) = grid s2).
Proof.
  intros HI. split.
  - destruct (mouseUp_spec e s HI)
      as (s' & snap & m & Hup & Hm & Hh & Hfr & Hs & _ & _ & HI' & Hg & Hn
          & Hold).
    pose proof (length_kept s (inv_cursor _ _ HI)) as Hlk.
    exists s', snap. split_and!; try done.
    + rewrite <- (entry_last s' _ snap (historyStep s + 1) Hh Hlk). congruence.
    + rewrite Hh, length_app. cbn [length]. lia.
    + rewrite Hs. congruence.
    + intros i g Hi Hig. rewrite Hh.
      intros [Hin|Hin]%elem_of_app.
      * apply elem_of_take in Hin as (i' & Hi' & Hlt).
        pose proof (NoDup_lookup _ _ _ _ (inv_entries _ _ HI) Hig Hi').
        pose proof (inv_cursor _ _ HI) as [? ?]. lia.
      * apply list_elem_of_singleton in Hin as ->.
        eapply (fresh_not_entry e s snap HI).
        -- apply Hfr. unfold gridLocs. apply elem_of_cons. by left.
        -- by eapply list_elem_of_lookup_2.
    + congruence.
  - intros k down moves j Hres c.
    destruct (undos_spec e k s HI) as (s1 & Hr1 & HI1 & Hh1 & Hs1 & He1 & _).
    destruct (stroke_spec e s1 down moves HI1 Hres)
      as (s2 & snap & m & Hr2 & HI2 & Hh2 & Hfr & Hs2 & Hg2 & Hn2 & Hold2).
    destruct (undos_spec e j s2 HI2) as (s3 & Hr3 & HI3 & Hh3 & Hs3 & He3 & Hset).
    fold c in Hs1. rewrite Hs1 in *. rewrite Hh1 in *.
    exists s3, snap. rewrite run_app, Hr1. cbn [mbind option_bind].
    rewrite run_app, Hr2. cbn [mbind option_bind]. split_and!; try done.
    + congruence.
    + lia.
    + lia.
    + apply Hset. apply (settled_intro s2 m); [done|]. by rewrite Hs2.
    + intros i g Hi Hg. rewrite Hh3, Hh2.
      intros [Hin|Hin]%elem_of_app.
      * apply elem_of_take in Hin as (i' & Hi' & Hlt).
        pose proof (NoDup_lookup _ _ _ _ (inv_entries _ _ HI) Hg Hi').
        lia.
      * apply list_elem_of_singleton in Hin as ->.
        eapply (fresh_not_entry e s1 snap HI1).
        -- apply Hfr. unfold gridLocs. apply elem_of_cons. by left.
        -- rewrite Hh1. by eapply list_elem_of_lookup_2.
    + intros i Hi. by rewrite He3, Hold2, He1.
    + lia.
    + exists s2. rewrite run_app, Hr1. cbn [mbind option_bind].
      split_and!; [done|done|]. rewrite He3. congruence.
Qed.

(** C4, as the code has it: in every state the component reaches, the
    cursor is within the history and no location of the grid store is a
    location of a history entry; the grid store holds what the entry at the
    cursor holds after mounting, after any pointer-up, and after an undo
    that starts above cursor 0 or from a state where it already did. *)
Theorem settle_points e s :
  reachable e s →
  cursorInRange s ∧ noAlias s ∧
  (∀ s0, mount e = Some s0 → settled s0) ∧
  (∃ s', handleMouseUp s = Some s' ∧ settled s' ∧ noAlias s') ∧
  (∃ s', undo s = Some s' ∧ noAlias s' ∧
         (0 < historyStep s ∨ settled s → settled s')).
Proof.
  intros Hreach. pose proof (reachable_Inv e s Hreach) as HI.
  split_and!.
  - apply HI.
  - apply HI.
  - intros s0 Hm. by destruct (mount_spec e s0 Hm) as (_ & ? & _).
  - destruct (mouseUp_spec e s HI)
      as (s' & snap & m & Hup & _ & _ & _ & Hs & _ & _ & HI' & Hg & Hn & _).
    exists s'. split_and!; [done| |apply HI'].
    apply (settled_intro s' m); [done|]. by rewrite Hs.
  - destruct (undo_spec e s HI)
      as (s' & Hu & Hs & _ & _ & _ & HI' & He & Hzero & Hpos).
    exists s'. split_and!; [done|apply HI'|].
    pose proof (inv_cursor _ _ HI) as [Hc0 Hc1].
    intros [Hlt|Hset].
    + destruct (Hpos Hlt) as (m & Hent & Hg).
      apply (settled_intro s' m); [done|]. rewrite He, Hs.
      replace (Z.max 0 (historyStep s - 1)) with (historyStep s - 1) by lia.
      done.
    + destruct (decide (historyStep s = 0)) as [Hz|Hnz].
      * by rewrite (Hzero Hz).
      * destruct Hpos as (m & Hent & Hg); [lia|].
        apply (settled_intro s' m); [done|]. rewrite He, Hs.
        replace (Z.max 0 (historyStep s - 1)) with (historyStep s - 1) by lia.
        done.
Qed.

(* ================================================================= *)
(** ** More on the brush *)

Lemma NoDup_range (n : Z) : NoDup (range n).
Proof.
  unfold range. apply NoDup_fmap_2; [|apply NoDup_seq].
  intros a b Hab. lia.
Qed.

Lemma elem_of_offsets_pair (n : Z) (d : Z * Z) (dy : Z) :
  d ∈ (range n ≫= λ dx, if (n >? 2) && isEdge n dy dx then [] else [(dy, dx)])
  → d.1 = dy.
Proof.
  intros (dx & Hin & _)%list_elem_of_bind.
  destruct ((n >? 2) && isEdge n dy dx); [by apply elem_of_nil in Hin|].
  by apply list_elem_of_singleton in Hin as ->.
Qed.

Lemma NoDup_offsets (n : Z) : NoDup (offsets n).
Proof.
  unfold offsets. apply NoDup_bind; [| |apply NoDup_range].
  - intros dy1 dy2 d _ _ H1 H2.
    apply elem_of_offsets_pair in H1, H2. congruence.
  - intros dy _. apply NoDup_bind; [| |apply NoDup_range].
    + intros dx1 dx2 d _ _ H1 H2.
      destruct ((n >? 2) && isEdge n dy dx1); [by apply elem_of_nil in H1|].
      destruct ((n >? 2) && isEdge n dy dx2); [by apply elem_of_nil in H2|].
      apply list_elem_of_singleton in H1, H2. congruence.
    + intros dx _. destruct ((n >? 2) && isEdge n dy dx);
        [apply NoDup_nil_2|apply NoDup_singleton].
Qed.

(** X1: whatever the corner test computes, a footprint lies within the
    square of side [penSize] that starts at the stamped cell and extends
    towards larger rows and columns, and lists no cell twice; for a pen of
    size 2 or less the corner test is not consulted and the footprint is the
    whole square (empty for a size of 0 or less). *)
Theorem footprint_in_square (row col n r c : Z) :
  ((r, c) ∈ footprint row col n →
   row <= r < row + n ∧ col <= c < col + n) ∧
  (n <= 2 →
   ((r, c) ∈ footprint row col n ↔
    row <= r < row + n ∧ col <= c < col + n)) ∧
  NoDup (footprint row col n).
Proof.
  split_and!.
  - intros (dy & dx & -> & -> & Hin)%elem_of_footprint.
    apply elem_of_offsets in Hin. lia.
  - intros Hn. rewrite elem_of_footprint. split.
    + intros (dy & dx & -> & -> & Hin). apply elem_of_offsets in Hin. lia.
    + intros [Hr Hc]. exists (r - row), (c - col).
      split_and!; [lia|lia|]. apply elem_of_offsets.
      assert ((n >? 2) = false) as -> by lia.
      split_and!; lia || done.
  - unfold footprint. apply NoDup_fmap_2; [|apply NoDup_offsets].
    intros [a b] [a' b'] Heq. cbn [fst snd] in Heq.
    injection Heq as H1 H2. f_equal; lia.
Qed.

(* ================================================================= *)
(** ** More on the ghost brush *)

Lemma ghostCells_filled e cells : ∀ w,
  fillStyle (ctx (fold_left (ghostCell e) cells w)) = fillStyle (ctx w) ∧
  filled (ctx (fold_left (ghostCell e) cells w)) =
    filled (ctx w) ++
    ((λ rc, (fillStyle (ctx w), cellRect e rc.1 rc.2)) <$>
     filter (λ rc, inBounds e rc.1 rc.2 = true) cells).
Proof.
  induction cells as [|rc cells IH]; intros w.
  - cbn [fold_left]. rewrite filter_nil. cbn [fmap list_fmap].
    by rewrite app_nil_r.
  - cbn [fold_left]. destruct (IH (ghostCell e w rc)) as [Hs Hf].
    rewrite Hs, Hf. unfold ghostCell.
    destruct (inBounds e rc.1 rc.2) eqn:Hb.
    + rewrite filter_cons_True by done. cbn [fillRect ctx fillStyle filled].
      split; [done|]. rewrite <- app_assoc. done.
    + rewrite filter_cons_False by congruence. done.
Qed.

(** X5: over a hover position, outside a stroke and outside grab mode, the
    ghost brush sets the fill style to the brush colour and fills, in
    footprint order, the rectangle of every footprint cell that is inside
    the grid and of no other cell: the cells a stamp there would paint. *)
Theorem drawGhostBrush_rectangles e w row col :
  hoverPos (comp w) = Some (row, col) →
  isDrawing (comp w) = false → isGrab e = false →
  fillStyle (ctx (drawGhostBrush e w)) = brushColor e ∧
  filled (ctx (drawGhostBrush e w)) =
    filled (ctx w) ++
    ((λ rc, (brushColor e, cellRect e rc.1 rc.2)) <$>
     filter (λ rc, inBounds e rc.1 rc.2 = true)
            (footprint row col (penSize e))).
Proof.
  intros Hh Hd Hg. unfold drawGhostBrush. rewrite Hh, Hd, Hg. cbn [negb andb].
  match goal with |- context [fold_left _ _ ?w1] =>
    destruct (ghostCells_filled e (footprint row col (penSize e)) w1)
      as [Hs Hf] end.
  rewrite Hs, Hf. done.
Qed.

(* ================================================================= *)
(** ** Hovering *)

(** X6: while no stroke is in progress, pointer-moves and pointer-leaves
    change the hover position and nothing else: the heap, the grid store,
    the history, the cursor and the Drawing flag are as they were, whatever
    the settings and however many events there are. *)
Theorem hover_never_edits (evs : list event) : ∀ s,
  isDrawing s = false →
  Forall (λ ev, match ev with
                | MouseMove _ _ _ | MouseLeave => True
                | _ => False
                end) evs →
  ∃ s', run evs s = Some s' ∧ s' = setHoverPos (hoverPos s') s.
Proof.
  induction evs as [|ev evs IH]; intros s Hd Hall.
  - exists s. split; [done|]. by destruct s.
  - apply Forall_cons in Hall as [Hev Hall]. cbn [run].
    destruct ev as [| e' row col | | |]; try done.
    + cbn [step]. unfold handleMouseMove. rewrite Hd. cbn [mbind option_bind].
      destruct (IH (setHoverPos (Some (row, col)) s) Hd Hall)
        as (s' & Hrun & Hs').
      exists s'. split; [done|]. rewrite Hs' at 1. done.
    + cbn [step mbind option_bind].
      destruct (IH (handleMouseLeave s) Hd Hall) as (s' & Hrun & Hs').
      exists s'. split; [done|]. rewrite Hs' at 1. done.
Qed.

(* ================================================================= *)
(** ** Stamps, one after the other *)

Lemma inBounds_sameRes e e' r c :
  logicWidth e' = logicWidth e → logicHeight e' = logicHeight e →
  inBounds e' r c = inBounds e r c.
Proof. intros Hw Hh. unfold inBounds. by rewrite Hw, Hh. Qed.

Lemma grid_length e s m :
  Inv e s → grid s = Some m → Z.of_nat (length m) = logicHeight e.
Proof. intros HI. apply validGrid_shape, HI. Qed.

(** X3: a stamp covers what an earlier stamp at the same cell with a pen of
    the same size painted: stamping with one brush and then another leaves
    the grid that the second stamp alone would have left.  In particular
    stamping twice with the same brush is stamping once. *)
Theorem stamp_overwrites e1 e2 row col s :
  Inv e1 s →
  logicWidth e2 = logicWidth e1 → logicHeight e2 = logicHeight e1 →
  penSize e2 = penSize e1 → isGrab e2 = false →
  ∃ s1 s2 s2',
    drawPixel e1 row col s = Some s1 ∧ drawPixel e2 row col s1 = Some s2 ∧
    drawPixel e2 row col s = Some s2' ∧ grid s2 = grid s2'.
Proof.
  intros HI Hw Hh Hpen Hg.
  destruct (drawPixel_spec e1 row col s HI)
    as (s1 & m & m1 & Hd1 & HI1 & _ & _ & _ & _ & _ & _ & Hm & Hm1 & Hc1).
  apply (Inv_sameRes e1 e2) in HI1; [|done|done].
  destruct (drawPixel_spec e2 row col s1 HI1)
    as (s2 & m1' & m2 & Hd2 & HI2 & _ & _ & _ & _ & _ & _ & Hm1' & Hm2 & Hc2).
  apply (Inv_sameRes e1 e2) in HI; [|done|done].
  destruct (drawPixel_spec e2 row col s HI)
    as (s2' & m' & m2' & Hd2' & HI2' & _ & _ & _ & _ & _ & _ & Hm' & Hm2' & Hc2').
  assert (m1' = m1) as -> by congruence. assert (m' = m) as -> by congruence.
  exists s1, s2, s2'. split_and!; try done.
  rewrite Hm2, Hm2'. f_equal. apply cellAt_ext.
  - pose proof (grid_length e2 s2 m2 HI2 Hm2).
    pose proof (grid_length e2 s2' m2' HI2' Hm2'). lia.
  - intros r c. rewrite Hc2, Hc2'.
    destruct (decide (isGrab e2 = false ∧
                      (r, c) ∈ footprint row col (penSize e2) ∧
                      inBounds e2 r c = true)) as [Hcond|Hcond]; [done|].
    rewrite Hc1. rewrite decide_False; [done|].
    intros (_ & Hin & Hb). apply Hcond. split_and!; [done| |].
    + by rewrite Hpen.
    + by rewrite (inBounds_sameRes e1 e2).
Qed.

(** X4: painting cells that were transparent and erasing at the same cell
    with a pen of the same size gives back the grid as it was. *)
Theorem paint_then_erase e1 e2 row col s m :
  Inv e1 s →
  logicWidth e2 = logicWidth e1 → logicHeight e2 = logicHeight e1 →
  penSize e2 = penSize e1 → isGrab e2 = false →
  selectedTool e2 = "eraser"%string →
  grid s = Some m →
  (∀ r c, (r, c) ∈ footprint row col (penSize e1) → inBounds e1 r c = true →
          cellAt m r c = Some (Some "transparent"%string)) →
  ∃ s1 s2,
    drawPixel e1 row col s = Some s1 ∧ drawPixel e2 row col s1 = Some s2 ∧
    grid s2 = Some m.
Proof.
  intros HI Hw Hh Hpen Hg Htool Hm Hblank.
  destruct (drawPixel_spec e1 row col s HI)
    as (s1 & m0 & m1 & Hd1 & HI1 & _ & _ & _ & _ & _ & _ & Hm0 & Hm1 & Hc1).
  assert (m0 = m) as -> by congruence.
  apply (Inv_sameRes e1 e2) in HI1; [|done|done].
  destruct (drawPixel_spec e2 row col s1 HI1)
    as (s2 & m1' & m2 & Hd2 & HI2 & _ & _ & _ & _ & _ & _ & Hm1' & Hm2 & Hc2).
  assert (m1' = m1) as -> by congruence.
  exists s1, s2. split_and!; try done.
  rewrite Hm2. f_equal. apply cellAt_ext.
  - pose proof (grid_length e2 s2 m2 HI2 Hm2).
    pose proof (grid_length e1 s m HI Hm). lia.
  - intros r c. rewrite Hc2. unfold brushColor at 1. rewrite Htool.
    cbn [String.eqb Ascii.eqb Bool.eqb andb].
    destruct (decide (isGrab e2 = false ∧
                      (r, c) ∈ footprint row col (penSize e2) ∧
                      inBounds e2 r c = true)) as [Hcond|Hcond].
    + destruct Hcond as (_ & Hin & Hb). symmetry. apply Hblank.
      * by rewrite <- Hpen.
      * by rewrite <- (inBounds_sameRes e1 e2).
    + rewrite Hc1. rewrite decide_False; [done|].
      intros (_ & Hin & Hb). apply Hcond. split_and!; [done| |].
      * by rewrite Hpen.
      * by rewrite (inBounds_sameRes e1 e2).
Qed.

(** X11: a stamp writes into a copy.  The array that was the grid store
    before the stamp still holds, cell for cell, what it held, and outside
    grab mode the new grid store shares no location with it. *)
Theorem drawPixel_copy_on_write e row col s :
  Inv e s →
  ∃ s', drawPixel e row col s = Some s' ∧
        readGrid (mem s') (pixels s) = grid s ∧
        gridLocs (mem s') (pixels s) = gridLocs (mem s) (pixels s) ∧
        (isGrab e = false →
         ∀ l, l ∈ gridLocs (mem s') (pixels s') →
              l ∉ gridLocs (mem s) (pixels s)).
Proof.
  intros HI. pose proof HI as [Hcur Hpix Hhist Hnd Halias].
  unfold drawPixel. destruct (isGrab e) eqn:Hgrab.
  { exists s. by split_and!. }
  destruct (deepCopy_valid _ _ _ Hpix)
    as (g' & h1 & m & Hcopy & Hp & Hv1 & Hm & Hm1 & Hfresh).
  rewrite Hcopy. cbn [mbind option_bind].
  destruct (stamp_spec e g' (footprint row col (penSize e)) h1 m Hv1 Hm1)
    as (h2 & m' & Hst & Hch & Hv2 & Hm2 & Hcell).
  rewrite Hst. cbn [mbind option_bind].
  destruct (grid_frame e (mem s) h1 h2 _ (pixels s) Hpix Hp Hch)
    as (_ & Hread & Hlocs).
  { intros l Hl. apply Hfresh. unfold gridLocs. by apply elem_of_cons; right. }
  exists (setPixels g' h2 s). state_simpl. split_and!; try done.
  intros _ l Hl Hold.
  assert (gridLocs h2 g' = gridLocs h1 g') as Hsame.
  { unfold gridLocs. f_equal. f_equal. apply Hch. }
  rewrite Hsame in Hl. apply Hfresh in Hl.
  pose proof (validGrid_locs_lt _ _ _ _ Hpix Hold). lia.
Qed.

(* ================================================================= *)
(** ** Strokes *)

Lemma moves_paint e (pts : list (Z * Z)) : ∀ s m,
  Inv e s → isGrab e = false → isDrawing s = true → grid s = Some m →
  ∃ s' m',
    run ((λ p, MouseMove e p.1 p.2) <$> pts) s = Some s' ∧ Inv e s' ∧
    grid s' = Some m' ∧ (∀ i, entry s' i = entry s i) ∧
    ∀ r c, cellAt m' r c =
      if decide (inBounds e r c = true ∧
                 Exists (λ p, (r, c) ∈ footprint p.1 p.2 (penSize e)) pts)
      then Some (Some (brushColor e)) else cellAt m r c.
Proof.
  induction pts as [|[pr pc] pts IH]; intros s m HI Hg Hd Hm.
  - exists s, m. split_and!; try done. intros r c.
    rewrite decide_False; [done|]. intros [_ Hex]. by apply Exists_nil in Hex.
  - cbn [fmap list_fmap run step fst snd]. unfold handleMouseMove. rewrite Hd.
    assert (Inv e (setHoverPos (Some (pr, pc)) s)) as HI0.
    { destruct HI as [Hcur Hpix Hhist Hnd Halias]. by split. }
    destruct (drawPixel_spec e pr pc _ HI0)
      as (s1 & m0 & m1 & -> & HI1 & _ & _ & Hd1 & _ & He1 & _ & Hm0 & Hm1 & Hc1).
    assert (m0 = m) as -> by (unfold grid in *; state_simpl; congruence).
    cbn [mbind option_bind].
    destruct (IH s1 m1 HI1 Hg) as (s' & m' & Hrun & HI' & Hm' & He' & Hc');
      [by rewrite Hd1|done|].
    exists s', m'. split_and!; try done.
    + intros i. rewrite He', He1. done.
    + intros r c. rewrite Hc', Hc1.
      destruct (decide (inBounds e r c = true ∧
                        Exists (λ p, (r, c) ∈ footprint p.1 p.2 (penSize e))
                               pts)) as [[Hb Hex]|Hno].
      * rewrite decide_True; [done|]. split; [done|]. by apply Exists_cons_tl.
      * destruct (decide (isGrab e = false ∧
                          (r, c) ∈ footprint pr pc (penSize e) ∧
                          inBounds e r c = true)) as [(_ & Hin & Hb)|Hno'].
        -- rewrite decide_True; [done|]. split; [done|].
           by apply Exists_cons_hd.
        -- rewrite decide_False; [done|]. intros [Hb Hex].
           apply Exists_cons in Hex as [Hin|Hex]; [|by apply Hno].
           by apply Hno'.
Qed.

(** X12: outside grab mode, a pointer-down and the pointer-moves that
    follow it paint the union of their stamps and nothing else: a cell of
    the grid takes the brush colour when it is in the footprint of one of
    the cells visited, and keeps its colour otherwise; nothing is thrown and
    no history entry changes. *)
Theorem stroke_paints_union e (p0 : Z * Z) (pts : list (Z * Z)) s m :
  Inv e s → isGrab e = false → grid s = Some m →
  ∃ s' m',
    run (MouseDown e p0.1 p0.2 :: ((λ p, MouseMove e p.1 p.2) <$> pts)) s
      = Some s' ∧
    grid s' = Some m' ∧ (∀ i, entry s' i = entry s i) ∧
    ∀ r c, cellAt m' r c =
      if decide (inBounds e r c = true ∧
                 Exists (λ p, (r, c) ∈ footprint p.1 p.2 (penSize e))
                        (p0 :: pts))
      then Some (Some (brushColor e)) else cellAt m r c.
Proof.
  intros HI Hg Hm. cbn [run step]. unfold handleMouseDown.
  destruct (drawPixel_spec e p0.1 p0.2 s HI)
    as (s1 & m0 & m1 & -> & HI1 & _ & _ & _ & _ & He1 & _ & Hm0 & Hm1 & Hc1).
  assert (m0 = m) as -> by congruence. cbn [mbind option_bind].
  assert (Inv e (setIsDrawing true s1)) as HI1'.
  { destruct HI1 as [Hcur Hpix Hhist Hnd Halias]. by split. }
  destruct (moves_paint e pts (setIsDrawing true s1) m1 HI1' Hg)
    as (s' & m' & Hrun & _ & Hm' & He' & Hc'); [done|done|].
  exists s', m'. split_and!; try done.
  - intros i. rewrite He'. apply He1.
  - intros r c. rewrite Hc', Hc1.
    destruct (decide (inBounds e r c = true ∧
                      Exists (λ p, (r, c) ∈ footprint p.1 p.2 (penSize e))
                             pts)) as [[Hb Hex]|Hno].
    + rewrite decide_True; [done|]. split; [done|]. by apply Exists_cons_tl.
    + destruct (decide (isGrab e = false ∧
                        (r, c) ∈ footprint p0.1 p0.2 (penSize e) ∧
                        inBounds e r c = true)) as [(_ & Hin & Hb)|Hno'].
      * rewrite decide_True; [done|]. split; [done|]. by apply Exists_cons_hd.
      * rewrite decide_False; [done|]. intros [Hb Hex].
        apply Exists_cons in Hex as [Hin|Hex]; [|by apply Hno].
        by apply Hno'.
Qed.

Lemma grab_moves (moves : list (env Hsv * (Z * Z))) : ∀ s,
  Forall (λ mv, isGrab mv.1 = true) moves →
  ∃ s', run ((λ m, MouseMove m.1 m.2.1 m.2.2) <$> moves) s = Some s' ∧
        s' = setHoverPos (hoverPos s') s.
Proof.
  induction moves as [|[e' [row col]] moves IH]; intros s Hall.
  - exists s. split; [done|]. by destruct s.
  - apply Forall_cons in Hall as [Hg Hall]. cbn [fst snd] in Hg.
    cbn [fmap list_fmap run step fst snd].
    assert (handleMouseMove e' row col s
            = Some (setHoverPos (Some (row, col)) s)) as ->.
    { unfold handleMouseMove, drawPixel. rewrite Hg. by destruct (isDrawing s). }
    cbn [mbind option_bind].
    destruct (IH (setHoverPos (Some (row, col)) s) Hall) as (s' & Hrun & Hs').
    exists s'. split; [done|]. rewrite Hs' at 1. done.
Qed.

(** X2: in grab mode a stroke paints nothing, whatever its path, pen and
    resolution settings, but its pointer-up commits all the same: the grid
    is as it was, and the history gets one more entry, holding that grid, on
    which the cursor is put.  The entry under it is kept, so from a state
    where the grid is the entry at the cursor the history ends in two equal
    entries. *)
Theorem grab_stroke_commits_copy e s down moves :
  Inv e s → Forall (λ mv, isGrab mv.1 = true) (down :: moves) →
  ∃ s' m,
    run (stroke down moves) s = Some s' ∧
    grid s = Some m ∧ grid s' = Some m ∧
    historyStep s' = historyStep s + 1 ∧
    Z.of_nat (length (history s')) = historyStep s + 2 ∧
    entry s' (historyStep s + 1) = Some m ∧
    entry s' (historyStep s) = entry s (historyStep s).
Proof.
  intros HI Hall. apply Forall_cons in Hall as [Hgd Hall].
  unfold stroke. cbn [run step]. unfold handleMouseDown, drawPixel.
  rewrite Hgd. cbn [mbind option_bind]. rewrite run_app.
  destruct (grab_moves moves (setIsDrawing true s) Hall) as (s2 & -> & Hs2).
  cbn [mbind option_bind run step].
  assert (Inv e s2) as HI2.
  { rewrite Hs2. destruct HI as [Hcur Hpix Hhist Hnd Halias]. by split. }
  assert (grid s2 = grid s) as Hg2 by (by rewrite Hs2).
  assert (historyStep s2 = historyStep s) as Hst2 by (by rewrite Hs2).
  assert (∀ i, entry s2 i = entry s i) as He2 by (intros i; by rewrite Hs2).
  destruct (mouseUp_spec e s2 HI2)
    as (s' & snap & m & -> & Hm & Hh & _ & Hs & _ & _ & HI' & Hg' & Hn & Hold).
  cbn [mbind option_bind]. pose proof (length_kept s2 (inv_cursor _ _ HI2)) as Hlk.
  pose proof (inv_cursor _ _ HI) as [Hc0 Hc1].
  exists s', m. rewrite Hst2 in *. split_and!; try done.
  - congruence.
  - rewrite Hh, length_app. cbn [length]. lia.
  - rewrite Hold by lia. apply He2.
Qed.

(* ================================================================= *)
(** ** Traces *)

Lemma validGrid_rows e h g m :
  validGrid e h g → readGrid h g = Some m →
  Forall (λ row, Z.of_nat (length row) = logicWidth e) m.
Proof.
  intros (rows & m0 & Hg & _ & Hm & _ & Hw). unfold readGrid.
  rewrite Hg. cbn [mbind option_bind]. congruence.
Qed.

(** X7: from mounting on, whatever the events and the settings they are
    handled under, the resolution being the one of the mount, no handler
    throws, and the grid store always is a grid of [logicHeight] rows of
    [logicWidth] cells. *)
Theorem events_never_raise e s0 evs :
  mount e = Some s0 → Forall (sameRes e) evs →
  ∃ s m, run evs s0 = Some s ∧ grid s = Some m ∧
         Z.of_nat (length m) = logicHeight e ∧
         Forall (λ row, Z.of_nat (length row) = logicWidth e) m.
Proof.
  intros Hm Hres. destruct (mount_spec e s0 Hm) as (HI0 & _).
  destruct (run_spec e evs s0 Hres HI0) as (s & Hrun & HI).
  destruct (validGrid_read e _ _ (inv_pixels _ _ HI)) as [m Hg].
  exists s, m. split_and!; try done.
  - by eapply grid_length.
  - eapply validGrid_rows; [apply HI|done].
Qed.

(** Every handler but the one of pointer-up leaves the history alone. *)
Lemma quiet_step e ev s :
  sameRes e ev → ev ≠ MouseUp → Inv e s →
  ∃ s', step ev s = Some s' ∧ Inv e s' ∧ history s' = history s ∧
        historyStep s' <= historyStep s ∧ (∀ i, entry s' i = entry s i).
Proof.
  intros Hres Hne HI.
  destruct ev as [e' row col|e' row col| | |ctrl key]; cbn [step]; [| |done| |].
  - destruct Hres as [Hw Hh].
    destruct (mouseDown_spec e e' row col s Hw Hh HI)
      as (s' & ? & ? & ? & Hs & ? & _).
    exists s'. split_and!; try done. lia.
  - destruct Hres as [Hw Hh].
    destruct (mouseMove_spec e e' row col s Hw Hh HI)
      as (s' & ? & ? & ? & Hs & ? & _).
    exists s'. split_and!; try done. lia.
  - eexists. split_and!; try done.
    destruct HI as [Hcur Hpix Hhist Hnd Halias]. by split.
  - unfold handleKeyDown.
    destruct (ctrl && (String.eqb key "z" || String.eqb key "Z")).
    + destruct (undo_spec e s HI) as (s' & ? & Hs & ? & _ & _ & ? & ? & _).
      pose proof (inv_cursor _ _ HI) as [? ?].
      exists s'. split_and!; try done. lia.
    + exists s. by split_and!.
Qed.

(** X8: only a pointer-up changes the history.  Over any events other than
    pointer-ups (strokes in progress, hovering, undos, other keys) the list
    of entries is the same, every entry holds cell for cell what it held,
    and the cursor does not advance. *)
Theorem history_changes_only_on_mouseUp e evs : ∀ s,
  Inv e s → Forall (sameRes e) evs → Forall (λ ev, ev ≠ MouseUp) evs →
  ∃ s', run evs s = Some s' ∧ history s' = history s ∧
        historyStep s' <= historyStep s ∧ (∀ i, entry s' i = entry s i).
Proof.
  induction evs as [|ev evs IH]; intros s HI Hres Hne.
  - exists s. split_and!; try done.
  - apply Forall_cons in Hres as [Hr Hres]. apply Forall_cons in Hne as [Hn Hne].
    cbn [run].
    destruct (quiet_step e ev s Hr Hn HI) as (s1 & -> & HI1 & Hh1 & Hs1 & He1).
    cbn [mbind option_bind].
    destruct (IH s1 HI1 Hres Hne) as (s' & Hrun & Hh' & Hs' & He').
    exists s'. split_and!; [done|congruence|lia|].
    intros i. by rewrite He', He1.
Qed.

(** The first entry is never replaced. *)
Lemma run_entry0 e evs : ∀ s,
  Forall (sameRes e) evs → Inv e s →
  ∃ s', run evs s = Some s' ∧ Inv e s' ∧ entry s' 0 = entry s 0.
Proof.
  induction evs as [|ev evs IH]; intros s Hres HI; [by exists s|].
  apply Forall_cons in Hres as [Hr Hres]. cbn [run].
  assert (∃ s1, step ev s = Some s1 ∧ Inv e s1 ∧ entry s1 0 = entry s 0)
    as (s1 & -> & HI1 & He1).
  { assert (ev = MouseUp ∨ ev ≠ MouseUp) as [->|Hne]
      by (destruct ev; (by left) || (by right)).
    - cbn [step]. destruct (mouseUp_spec e s HI)
        as (s1 & snap & m & ? & _ & _ & _ & _ & _ & _ & ? & _ & _ & Hold).
      exists s1. split_and!; try done. apply Hold.
      pose proof (inv_cursor _ _ HI) as [? ?]. lia.
    - destruct (quiet_step e ev s Hr Hne HI) as (s1 & ? & ? & _ & _ & He).
      exists s1. by split_and!. }
  cbn [mbind option_bind].
  destruct (IH s1 Hres HI1) as (s' & Hrun & HI' & He').
  exists s'. split_and!; [done|done|congruence].
Qed.

Lemma undos_settle e k s :
  Inv e s → 0 < historyStep s ∨ settled s → historyStep s <= Z.of_nat k →
  ∃ s', run (replicate k ctrlZ) s = Some s' ∧ historyStep s' = 0 ∧
        settled s' ∧ (∀ i, entry s' i = entry s i).
Proof.
  intros HI Hor Hk. pose proof (inv_cursor _ _ HI) as [Hc0 Hc1].
  destruct (decide (0 < historyStep s)) as [Hpos|Hzero].
  - destruct k as [|k]; [lia|]. cbn [replicate run]. rewrite handleKeyDown_ctrlZ.
    destruct (undo_spec e s HI)
      as (s1 & -> & Hs1 & _ & _ & _ & HI1 & He1 & _ & Hrestore).
    destruct (Hrestore Hpos) as (m & Hent & Hg). cbn [mbind option_bind].
    assert (settled s1) as Hset1.
    { apply (settled_intro s1 m); [done|]. rewrite He1, Hs1.
      replace (Z.max 0 (historyStep s - 1)) with (historyStep s - 1) by lia.
      done. }
    destruct (undos_spec e k s1 HI1) as (s' & Hrun & _ & _ & Hs' & He' & Hset').
    exists s'. split_and!; [done|lia|by apply Hset'|].
    intros i. by rewrite He', He1.
  - destruct Hor as [?|Hset]; [lia|].
    destruct (undos_spec e k s HI) as (s' & Hrun & _ & _ & Hs' & He' & Hset').
    exists s'. split_and!; [done|lia|by apply Hset'|done].
Qed.

(** X9: in every reachable state the first history entry holds the blank
    grid, and undo leads back to it: when the cursor is above 0, or the grid
    is the entry at the cursor, as many undos as the cursor counts (or more)
    put the cursor at 0 and the blank grid in the grid store. *)
Theorem undo_all_restores_blank e s :
  reachable e s →
  entry s 0 = Some (blankGrid e) ∧
  ∀ k, 0 < historyStep s ∨ settled s → historyStep s <= Z.of_nat k →
    ∃ s', run (replicate k ctrlZ) s = Some s' ∧ historyStep s' = 0 ∧
          grid s' = Some (blankGrid e) ∧ entry s' 0 = Some (blankGrid e).
Proof.
  intros Hreach. pose proof (reachable_Inv e s Hreach) as HI.
  destruct Hreach as (s0 & evs & Hm & Hres & Hrun).
  destruct (mount_spec e s0 Hm) as (HI0 & (m0 & Hg0 & He0) & Hs0 & _ & _ & _ & Hb).
  assert (entry s 0 = Some (blankGrid e)) as Hfirst.
  { destruct (run_entry0 e evs s0 Hres HI0) as (s' & Hrun' & _ & He).
    assert (s' = s) as -> by congruence.
    rewrite He. rewrite Hs0 in He0. unfold blankGrid. congruence. }
  split; [done|]. intros k Hor Hk.
  destruct (undos_settle e k s HI Hor Hk) as (s' & Hr & Hs' & (m & Hg & He) & Hent).
  exists s'. split_and!; try done; [|by rewrite Hent].
  rewrite Hs', Hent in He. congruence.
Qed.

(* ================================================================= *)
(** ** Mounting *)

Lemma mount_total e :
  0 <= logicHeight e < 2 ^ 32 →
  (0 < logicHeight e → 0 <= logicWidth e < 2 ^ 32) →
  is_Some (mount e).
Proof.
  intros Hh Hw. unfold mount, arrayLength.
  assert (negb ((0 <=? logicHeight e) && (logicHeight e <? 2 ^ 32))
          || ((0 <? logicHeight e)
              && negb ((0 <=? logicWidth e) && (logicWidth e <? 2 ^ 32)))
          = false) as -> by lia.
  set (n := Z.to_nat (logicHeight e)).
  set (cs := replicate (Z.to_nat (logicWidth e)) (Some "transparent"%string)).
  set (h0 := replicate n (Row cs) ++ [Grid (seq 0 n)]).
  assert (getGrid h0 n = Some (seq 0 n)) as Hg0.
  { pose proof (list_lookup_middle (replicate n (Row cs)) []
                  (Grid (seq 0 n)) n) as Hmid.
    unfold getGrid, h0. rewrite Hmid; [done|]. by rewrite length_replicate. }
  assert (mapM (getRow h0) (seq 0 n) = Some (replicate n cs)) as Hm0.
  { pose proof (mapM_getRow_copied [] (replicate n cs) [Grid (seq 0 n)]) as Hc.
    rewrite length_replicate in Hc. unfold h0. by rewrite <- fmap_replicate. }
  rewrite (deepCopy_spec h0 n _ _ Hg0 Hm0). by eexists.
Qed.

(** X10: mounting throws when [logicHeight] is not an array length (it is
    negative, or 2^32 or more), or is positive with a [logicWidth] that is
    not one, and not otherwise.  It leaves a blank grid of the resolution in
    the grid store, a history of one entry that also holds the blank grid,
    at locations of its own, the cursor on it, no stroke in progress and no
    hover position. *)
Theorem mount_blank e :
  (is_Some (mount e) ↔
   0 <= logicHeight e < 2 ^ 32 ∧
   (0 < logicHeight e → 0 <= logicWidth e < 2 ^ 32)) ∧
  ∀ s, mount e = Some s →
       grid s = Some (blankGrid e) ∧ entry s 0 = Some (blankGrid e) ∧
       length (history s) = 1%nat ∧ historyStep s = 0 ∧
       isDrawing s = false ∧ hoverPos s = None ∧ noAlias s.
Proof.
  split.
  - split; [|intros [? ?]; by apply mount_total].
    intros [s Hs]. unfold mount, arrayLength in Hs.
    destruct (negb ((0 <=? logicHeight e) && (logicHeight e <? 2 ^ 32))
              || ((0 <? logicHeight e)
                  && negb ((0 <=? logicWidth e) && (logicWidth e <? 2 ^ 32))))
      eqn:E; [done|].
    lia.
  - intros s Hm.
    destruct (mount_spec e s Hm)
      as (HI & (m0 & Hg0 & He0) & Hs & Hl & Hd & Hh & Hb).
    rewrite Hs in He0. unfold blankGrid.
    split_and!; try done; [congruence|apply HI].
Qed.

(* ================================================================= *)
(** ** Rows without holes *)

Lemma noHoles_cellAt (m : list (list (option string))) :
  noHoles m ↔ ∀ r c x, cellAt m r c = Some x → is_Some x.
Proof.
  unfold noHoles. split.
  - intros Hall r c x. unfold cellAt.
    destruct ((r <? 0) || (c <? 0)); [done|].
    destruct (m !! Z.to_nat r) as [row|] eqn:Hrow; [|done].
    cbn [mbind option_bind]. intros Hx.
    eapply (Forall_lookup_1 _ row); [|done].
    by eapply (Forall_lookup_1 _ m).
  - intros Hcell. apply Forall_lookup. intros i row Hrow.
    apply Forall_lookup. intros j x Hx.
    apply (Hcell (Z.of_nat i) (Z.of_nat j)). unfold cellAt.
    destruct (Z.of_nat i <? 0) eqn:Ei; [apply Z.ltb_lt in Ei; lia|].
    destruct (Z.of_nat j <? 0) eqn:Ej; [apply Z.ltb_lt in Ej; lia|].
    cbn [orb]. by rewrite !Nat2Z.id, Hrow.
Qed.

Lemma noHoles_blankGrid e : noHoles (blankGrid e).
Proof.
  unfold noHoles, blankGrid. apply Forall_replicate, Forall_replicate.
  by eexists.
Qed.

Lemma entry_Some_range s i m :
  entry s i = Some m → 0 <= i < Z.of_nat (length (history s)).
Proof.
  unfold entry, lookupZ. destruct (i <? 0) eqn:E; [done|].
  apply Z.ltb_ge in E.
  destruct (history s !! Z.to_nat i) as [g|] eqn:Hg; [|done].
  intros _. apply lookup_lt_Some in Hg. lia.
Qed.

Lemma holeFree_ext s s' :
  grid s' = grid s → (∀ i, entry s' i = entry s i) →
  holeFree s → holeFree s'.
Proof.
  intros Hg He [Hgrid Hent]. split.
  - intros m. rewrite Hg. apply Hgrid.
  - intros i m. rewrite He. apply Hent.
Qed.

Lemma drawPixel_holeFree e row col s :
  Inv e s → holeFree s →
  ∃ s', drawPixel e row col s = Some s' ∧ Inv e s' ∧ holeFree s' ∧
        isDrawing s' = isDrawing s.
Proof.
  intros HI [Hgrid Hent].
  destruct (drawPixel_spec e row col s HI)
    as (s' & m & m' & Hd & HI' & _ & _ & Hdr & _ & He & _ & Hm & Hm' & Hc).
  exists s'. split_and!; try done. split.
  - intros m1 Hm1. assert (m1 = m') as -> by congruence.
    apply noHoles_cellAt. intros r c x. rewrite Hc.
    destruct (decide (isGrab e = false ∧
                      (r, c) ∈ footprint row col (penSize e) ∧
                      inBounds e r c = true)) as [Hcond|Hcond];
      [intros Hx; injection Hx as Hx; subst x; by eexists|].
    apply noHoles_cellAt. by apply Hgrid.
  - intros i mi. rewrite He. apply Hent.
Qed.

Lemma step_holeFree e ev s :
  sameRes e ev → Inv e s → holeFree s →
  ∃ s', step ev s = Some s' ∧ Inv e s' ∧ holeFree s'.
Proof.
  intros Hres HI Hfree.
  destruct ev as [e' row col|e' row col| | |ctrl key]; cbn [step].
  - destruct Hres as [Hw Hh]. unfold handleMouseDown.
    destruct (drawPixel_holeFree e' row col s) as (s1 & -> & HI1 & Hf1 & _);
      [by eapply Inv_sameRes|done|].
    cbn [mbind option_bind]. apply (Inv_sameRes e' e) in HI1; [|done|done].
    exists (setIsDrawing true s1). split_and!; [done| |].
    + destruct HI1 as [Hcur Hpix Hhist Hnd Halias]. by split.
    + by apply (holeFree_ext s1).
  - destruct Hres as [Hw Hh]. unfold handleMouseMove.
    assert (Inv e (setHoverPos (Some (row, col)) s)) as HI0.
    { destruct HI as [Hcur Hpix Hhist Hnd Halias]. by split. }
    assert (holeFree (setHoverPos (Some (row, col)) s)) as Hf0
      by (by apply (holeFree_ext s)).
    destruct (isDrawing s); [|by eexists].
    destruct (drawPixel_holeFree e' row col _ (Inv_sameRes e e' _
                (eq_sym (eq_sym Hw)) (eq_sym (eq_sym Hh)) HI0) Hf0)
      as (s1 & -> & HI1 & Hf1 & _).
    exists s1. split_and!; [done| |done]. by apply (Inv_sameRes e' e) in HI1.
  - destruct Hfree as [Hgrid Hent].
    destruct (mouseUp_spec e s HI)
      as (s' & snap & m & -> & Hm & Hh & _ & Hs & _ & _ & HI' & Hg' & Hn & Hold).
    pose proof (length_kept s (inv_cursor _ _ HI)) as Hlk.
    exists s'. split_and!; [done|done|]. split.
    + intros m1 Hm1. assert (m1 = m) as -> by congruence. by apply Hgrid.
    + intros i mi Hi. pose proof (entry_Some_range s' i mi Hi) as Hr.
      rewrite Hh, length_app in Hr. cbn [length] in Hr.
      destruct (decide (i = historyStep s + 1)) as [->|Hne].
      * assert (mi = m) as -> by congruence. by apply Hgrid.
      * rewrite Hold in Hi by lia. by eapply Hent.
  - eexists. split_and!; [done| |by apply (holeFree_ext s)].
    destruct HI as [Hcur Hpix Hhist Hnd Halias]. by split.
  - unfold handleKeyDown.
    destruct (ctrl && (String.eqb key "z" || String.eqb key "Z"));
      [|by exists s].
    destruct Hfree as [Hgrid Hent].
    destruct (undo_spec e s HI)
      as (s' & -> & _ & _ & _ & _ & HI' & He & Hzero & Hpos).
    exists s'. split_and!; [done|done|]. split.
    + intros m1 Hm1. pose proof (inv_cursor _ _ HI) as [? ?].
      destruct (decide (historyStep s = 0)) as [Hz|Hnz].
      * rewrite (Hzero Hz) in Hm1. by apply Hgrid.
      * destruct Hpos as (m & Hent' & Hg); [lia|].
        assert (m1 = m) as -> by congruence. by eapply Hent.
    + intros i mi. rewrite He. apply Hent.
Qed.

Lemma cellAt_inBounds e m r c :
  Z.of_nat (length m) = logicHeight e →
  Forall (λ row, Z.of_nat (length row) = logicWidth e) m →
  noHoles m → inBounds e r c = true →
  ∃ colour, cellAt m r c = Some (Some colour).
Proof.
  intros Hlen Hrows Hfree Hb. unfold inBounds in Hb.
  rewrite !andb_true_iff in Hb. destruct Hb as (((Hr0 & Hr1) & Hc0) & Hc1).
  apply Z.leb_le in Hr0, Hc0. apply Z.ltb_lt in Hr1, Hc1.
  destruct (lookup_lt_is_Some_2 m (Z.to_nat r)) as [row Hrow]; [lia|].
  pose proof (Forall_lookup_1 _ _ _ _ Hrows Hrow) as Hw. cbn beta in Hw.
  destruct (lookup_lt_is_Some_2 row (Z.to_nat c)) as [x Hx]; [lia|].
  assert (cellAt m r c = Some x) as Hcell.
  { unfold cellAt.
    destruct (r <? 0) eqn:Er; [apply Z.ltb_lt in Er; lia|].
    destruct (c <? 0) eqn:Ec; [apply Z.ltb_lt in Ec; lia|].
    cbn [orb]. by rewrite Hrow. }
  destruct (proj1 (noHoles_cellAt m) Hfree r c x Hcell) as [colour ->].
  by exists colour.
Qed.

(** X13: in every state the component reaches, each cell of the grid store
    inside the resolution holds a colour string, and neither the grid store
    nor a history entry has a hole: the guarded write of the stamp never
    extends a row. *)
Theorem cells_always_coloured e s :
  reachable e s →
  holeFree s ∧
  ∃ m, grid s = Some m ∧
       ∀ r c, inBounds e r c = true →
              ∃ colour, cellAt m r c = Some (Some colour).
Proof.
  intros (s0 & evs & Hm & Hres & Hrun).
  destruct (mount_spec e s0 Hm) as (HI0 & (m0 & Hg0 & He0) & Hs0 & Hl0 & _ & _ & Hb).
  assert (holeFree s0) as Hf0.
  { assert (m0 = blankGrid e) as -> by (unfold blankGrid; congruence).
    split.
    - intros m1 Hm1. assert (m1 = blankGrid e) as -> by congruence.
      apply noHoles_blankGrid.
    - intros i mi Hi. pose proof (entry_Some_range s0 i mi Hi) as Hr.
      rewrite Hl0 in Hr. assert (i = 0) as -> by lia.
      rewrite Hs0 in He0. assert (mi = blankGrid e) as -> by congruence.
      apply noHoles_blankGrid. }
  assert (∃ s', run evs s0 = Some s' ∧ Inv e s' ∧ holeFree s')
    as (s' & Hrun' & HI & Hf).
  { clear Hrun Hg0 He0 Hs0 Hl0 Hb Hm. revert s0 HI0 Hf0.
    induction evs as [|ev evs IH]; intros s0 HI0 Hf0; [by exists s0|].
    apply Forall_cons in Hres as [Hr Hres]. cbn [run].
    destruct (step_holeFree e ev s0 Hr HI0 Hf0) as (s1 & -> & HI1 & Hf1).
    cbn [mbind option_bind]. by apply IH. }
  assert (s' = s) as -> by congruence.
  split; [done|].
  destruct (validGrid_read e _ _ (inv_pixels _ _ HI)) as [m Hg].
  exists m. split; [done|]. intros r c Hbd.
  apply (cellAt_inBounds e m r c); try done.
  - by eapply grid_length.
  - eapply validGrid_rows; [apply HI|done].
  - by apply Hf.
Qed.

(* ================================================================= *)
(** ** The repaint of the grid *)

Lemma elem_of_gridCells e (r c : Z) :
  (r, c) ∈ gridCells e ↔ inBounds e r c = true.
Proof.
  unfold gridCells, inBounds. rewrite list_elem_of_bind. split.
  - intros (y & Hin & Hy%elem_of_range).
    apply list_elem_of_bind in Hin as (x & Hin & Hx%elem_of_range).
    apply list_elem_of_singleton in Hin. injection Hin as -> ->. lia.
  - intros Hb. exists r. split; [|apply elem_of_range; lia].
    apply list_elem_of_bind. exists c. split; [|apply elem_of_range; lia].
    by apply list_elem_of_singleton.
Qed.

Lemma paintCell_spec e w m (r c : Z) colour :
  validGrid e (mem (comp w)) (pixels (comp w)) →
  grid (comp w) = Some m →
  cellAt m r c = Some (Some colour) →
  paintCell e w (r, c) =
    Some (fillRect (c * pixelSize e) (r * pixelSize e)
                   (pixelSize e) (pixelSize e) (setFillStyle colour w)).
Proof.
  intros (rows & m0 & Hg & _ & Hm & _) Hgrid Hcell.
  assert (m0 = m) as ->.
  { unfold grid, readGrid in Hgrid. rewrite Hg in Hgrid.
    cbn [mbind option_bind] in Hgrid. congruence. }
  unfold cellAt in Hcell.
  destruct (r <? 0) eqn:Er; [done|]. destruct (c <? 0) eqn:Ec; [done|].
  cbn [orb] in Hcell.
  destruct (m !! Z.to_nat r) as [cs|] eqn:Hrow; [|done].
  cbn [mbind option_bind] in Hcell.
  apply mapM_Some in Hm.
  destruct (Forall2_lookup_r _ _ _ _ _ Hm Hrow) as (rl & Hrl & Hget).
  unfold paintCell, lookupZ. cbn [fst snd]. rewrite Hg. cbn [mbind option_bind].
  rewrite Er, Hrl. cbn [mbind option_bind]. rewrite Hget.
  cbn [mbind option_bind]. by rewrite Ec, Hcell.
Qed.

Lemma paintCells_spec e m cells : ∀ w,
  validGrid e (mem (comp w)) (pixels (comp w)) →
  grid (comp w) = Some m →
  Forall (λ rc, ∃ colour, cellAt m rc.1 rc.2 = Some (Some colour)) cells →
  ∃ w' new,
    paintCells e cells w = Some w' ∧ comp w' = comp w ∧
    filled (ctx w') = filled (ctx w) ++ new ∧
    Forall2 (λ rc f, cellAt m rc.1 rc.2 = Some (Some f.1) ∧
                     f.2 = cellRect e rc.1 rc.2) cells new.
Proof.
  induction cells as [|[r c] cells IH]; intros w Hv Hg Hall.
  - exists w, []. split_and!; try done. by rewrite app_nil_r.
  - apply Forall_cons in Hall as [[colour Hc] Hall]. cbn [fst snd] in Hc.
    cbn [paintCells]. rewrite (paintCell_spec e w m r c colour Hv Hg Hc).
    cbn [mbind option_bind].
    match goal with |- context [paintCells e cells ?w1] =>
      destruct (IH w1) as (w' & new & Hp & Hcomp & Hf & Hnew) end;
      [done|done|done|].
    exists w', ((colour, cellRect e r c) :: new). split_and!; try done.
    + rewrite Hf. cbn [fillRect setFillStyle ctx filled fillStyle].
      by rewrite <- app_assoc.
    + by constructor.
Qed.

(** X14: on a grid without holes the repaint throws nothing and leaves the
    component's state alone; it removes from the canvas what was filled
    within it, the rectangle of any cell of the grid among it (a ghost
    brush, an earlier repaint), and then fills one rectangle per cell, row
    by row, each in the colour of its cell. *)
Theorem drawForegroundGrid_paints_grid e w m :
  Inv e (comp w) → grid (comp w) = Some m → noHoles m →
  ∃ w' kept new,
    drawForegroundGrid e w = Some w' ∧ comp w' = comp w ∧
    filled (ctx w') = kept ++ new ∧
    Forall2 (λ rc f, cellAt m rc.1 rc.2 = Some (Some f.1) ∧
                     f.2 = cellRect e rc.1 rc.2) (gridCells e) new ∧
    (∀ f, f ∈ kept → f ∈ filled (ctx w)) ∧
    (0 <= pixelSize e →
     ∀ style r c, inBounds e r c = true → (style, cellRect e r c) ∉ kept).
Proof.
  intros HI Hg Hfree. unfold drawForegroundGrid.
  set (wc := clearRect 0 0 (logicWidth e * pixelSize e)
                       (logicHeight e * pixelSize e) w).
  destruct (paintCells_spec e m (gridCells e) wc)
    as (w' & new & Hp & Hcomp & Hf & Hnew).
  - apply HI.
  - done.
  - apply Forall_forall. intros [r c] Hin. apply elem_of_gridCells in Hin.
    apply (cellAt_inBounds e m r c); try done.
    + by eapply grid_length.
    + eapply validGrid_rows; [apply HI|done].
  - exists w', (filled (ctx wc)), new. split_and!; try done.
    + intros f Hin. unfold wc, clearRect in Hin. cbn [ctx filled] in Hin.
      by apply list_elem_of_filter in Hin as [_ ?].
    + intros Hps style r c Hb Hin. unfold wc, clearRect in Hin.
      cbn [ctx filled] in Hin. apply list_elem_of_filter in Hin as [Hout _].
      cbn [snd] in Hout. unfold insideRect, cellRect in Hout.
      unfold inBounds in Hb. rewrite !andb_true_iff in Hb.
      destruct Hb as (((Hr0 & Hr1) & Hc0) & Hc1).
      apply Z.leb_le in Hr0, Hc0. apply Z.ltb_lt in Hr1, Hc1.
      rewrite !andb_false_iff in Hout.
      rewrite !Z.leb_gt in Hout. nia.
Qed.

End Component.

(* ================================================================= *)
(** ** The coordinate mapping *)







(** The same with an increment that the floats add exactly: x = 4 and
    x = 4 + 0.8 * 4 = 7.2, the canvas starting at -12. *)
Lemma getCell_shift_exact_increment :
  colF (getCell 4 0 (-12) 0 0x1.999999999999ap-1 4) = 5%float ∧
  colF (getCell (4 + 0x1.999999999999ap-1 * 4) 0 (-12) 0 0x1.999999999999ap-1 4)
  = 5%float.
Proof. split; vm_compute; reflexivity. Qed.

(* ================================================================= *)
(** ** The statements at the 2 x 2 canvas *)

Lemma s0_mounted : mount e0 = Some s0.
Proof. reflexivity. Qed.

Lemma s0_Inv : Inv e0 s0.
Proof. apply (mount_spec e0 s0 s0_mounted). Qed.

Lemma s0_settled : settled s0.
Proof. apply (mount_spec e0 s0 s0_mounted). Qed.

Lemma s0_reachable : reachable cssRed noEdge e0 s0.
Proof. exists s0, []. split_and!; [reflexivity|constructor|reflexivity]. Qed.

Lemma sStroke_run :
  run cssRed noEdge (stroke (e0, (0, 0)) []) s0 = Some sStroke.
Proof. vm_compute. reflexivity. Qed.

Lemma sStroke_reachable : reachable cssRed noEdge e0 sStroke.
Proof.
  exists s0, (stroke (e0, (0, 0)) []).
  split_and!; [reflexivity|repeat constructor|exact sStroke_run].
Qed.

Lemma sStroke_Inv : Inv e0 sStroke.
Proof. exact (reachable_Inv cssRed noEdge e0 sStroke sStroke_reachable). Qed.

Lemma sUndo_run : run cssRed noEdge [ctrlZ] sStroke = Some sUndo.
Proof. vm_compute. reflexivity. Qed.

Lemma sUndo_reachable : reachable cssRed noEdge e0 sUndo.
Proof.
  exists s0, (stroke (e0, (0, 0)) [] ++ [ctrlZ]).
  split_and!; [reflexivity|repeat constructor|].
  rewrite run_app, sStroke_run. exact sUndo_run.
Qed.

Lemma sUndo_Inv : Inv e0 sUndo.
Proof. exact (reachable_Inv cssRed noEdge e0 sUndo sUndo_reachable). Qed.

(** A canvas of 2^32 rows does not mount: [Array(4294967296)] throws. *)
Lemma mount_rejects_2_32 :
  mount {| logicWidth := 2; logicHeight := 2 ^ 32; pixelSize := 10;
           isGrab := false; penSize := 1; selectedColor := tt;
           selectedTool := "pen" |} = None.
Proof. reflexivity. Qed.

Lemma drawPixel_bounds_witness :
  ∃ s', drawPixel cssRed noEdge e0 (-1) (-1) s0 = Some s' ∧
        grid s' = grid s0.
Proof.
  destruct (drawPixel_bounds cssRed noEdge e0 (-1) (-1) s0 s0_Inv)
    as (s' & m & m' & Hd & Hm & Hm' & _ & _ & _ & Hpen).
  exists s'. split; [exact Hd|].
  rewrite Hm, Hm'. f_equal. apply Hpen; reflexivity.
Defined.

(** C6 as stated fails for a pen larger than 1: on the 5 x 5 canvas a stamp
    of size 2 at the cell (-1, -1), which is outside the grid, covers the
    cell (0, 0) and paints it. *)
Lemma stamp_outside_paints_inside :
  ∃ s s',
    mount e5 = Some s ∧ inBounds e5 (-1) (-1) = false ∧
    drawPixel cssRed noEdge e5 (-1) (-1) s = Some s' ∧
    (m ← grid s; cellAt m 0 0) = Some (Some "transparent"%string) ∧
    (m ← grid s'; cellAt m 0 0) = Some (Some "red"%string).
Proof.
  do 2 eexists. split; [vm_compute; reflexivity|].
  split; [reflexivity|]. split; [vm_compute; reflexivity|].
  split; vm_compute; reflexivity.
Qed.

Lemma mouseUp_commits_unconditionally_witness :
  isDrawing s0 = false ∧
  ∃ s' snap, handleMouseUp s0 = Some s' ∧ history s' = history s0 ++ [snap] ∧
             historyStep s' = 1 ∧ grid s' = grid s0.
Proof.
  split; [reflexivity|].
  destruct (mouseUp_commits_unconditionally e0 s0 s0_Inv)
    as (s' & snap & Hup & Hh & _ & Hs & _ & Hg & _).
  exists s', snap. split_and!; [exact Hup|exact Hh|exact Hs|exact Hg].
Defined.

(** An undo at cursor 1, after the stroke over (0, 0): the red cell is
    gone, the grid store holds what the first entry held; and an undo at
    cursor 0, which changes nothing. *)
Lemma undo_cursor_and_grid_witness :
  (historyStep sStroke = 1 ∧
   (m ← grid sStroke; cellAt m 0 0) = Some (Some "red"%string) ∧
   ∃ s', undo sStroke = Some s' ∧ historyStep s' = 0 ∧
         grid s' = entry sStroke 0 ∧ grid s' = Some (blankGrid e0) ∧
         entry s' 1 = entry sStroke 1) ∧
  undo s0 = Some s0 ∧ handleKeyDown true "z" s0 = Some s0.
Proof.
  split.
  - split; [reflexivity|]. split; [reflexivity|].
    destruct (undo_cursor_and_grid e0 sStroke sStroke_Inv)
      as (s' & Hu & _ & Hs & _ & _ & _ & He & Hpos & _).
    destruct Hpos as (m & Hent & Hg); [reflexivity|].
    exists s'. split_and!; [exact Hu|exact Hs| | |apply He].
    + rewrite Hg, <- Hent. reflexivity.
    + rewrite Hg, <- Hent. reflexivity.
  - destruct (undo_cursor_and_grid e0 s0 s0_Inv)
      as (s' & Hu & Hk & _ & _ & _ & Hzero & _).
    rewrite (Hzero eq_refl) in Hu, Hk. split; [exact Hu|exact Hk].
Defined.

Lemma stroke_undo_roundtrip_witness :
  ∃ s', run cssRed noEdge
          (stroke (e0, (0, 0)) [(e0, (0, 1))] ++ [ctrlZ]) s0 = Some s' ∧
        grid s' = grid s0 ∧ historyStep s' = historyStep s0.
Proof.
  apply (stroke_undo_roundtrip cssRed noEdge e0 s0);
    [exact s0_Inv|exact s0_settled|].
  repeat constructor.
Defined.

(** C2 as stated fails when the grid store is ahead of the history.  A
    pointer-down whose pointer-up never reaches the canvas paints (0, 0)
    and commits nothing; the next stroke, at (1, 1), is committed, and the
    undo after it brings back the entry at cursor 0, the blank grid, not
    the grid that stroke started from. *)
Lemma stroke_undo_after_abandoned_stroke :
  mount e0 = Some s0 ∧
  ∃ s1 s2,
    run cssRed noEdge [MouseDown e0 0 0] s0 = Some s1 ∧
    run cssRed noEdge (stroke (e0, (1, 1)) [] ++ [ctrlZ]) s1 = Some s2 ∧
    (m ← grid s1; cellAt m 0 0) = Some (Some "red"%string) ∧
    (m ← grid s2; cellAt m 0 0) = Some (Some "transparent"%string).
Proof.
  split; [reflexivity|]. do 2 eexists.
  split; [vm_compute; reflexivity|]. split; [vm_compute; reflexivity|].
  split; vm_compute; reflexivity.
Qed.

(** A commit with an entry beyond the cursor: in [sUndo] the history is
    [[5; 11]] with the cursor at 0; the pointer-up keeps entry 0 with its
    content and drops 11.  A commit at the last index: in [sStroke] the
    cursor is at 1; the pointer-up keeps both entries with their content.
    And from [sStroke], one undo, a stroke over (1, 1) and two more undos:
    11 is dropped likewise. *)
Lemma commit_truncates_history_witness :
  history sUndo = [5; 11]%nat ∧ historyStep sUndo = 0 ∧
  (∃ s' snap,
     handleMouseUp sUndo = Some s' ∧ history s' = [5%nat; snap] ∧
     (11%nat ∉ history s') ∧ entry s' 0 = entry sUndo 0 ∧
     entry s' 1 = grid sUndo) ∧
  (∃ s' snap,
     handleMouseUp sStroke = Some s' ∧ history s' = [5%nat; 11%nat; snap] ∧
     entry s' 0 = entry sStroke 0 ∧ entry s' 1 = entry sStroke 1 ∧
     entry s' 2 = grid sStroke ∧ historyStep s' = 2) ∧
  (∃ s3 snap,
     run cssRed noEdge
       (replicate 1 ctrlZ ++ stroke (e0, (1, 1)) [] ++ replicate 2 ctrlZ)
       sStroke = Some s3 ∧
     history s3 = [5%nat; snap] ∧ (11%nat ∉ history s3) ∧
     entry s3 0 = entry sStroke 0 ∧ historyStep s3 = 0 ∧ settled s3).
Proof.
  split; [reflexivity|]. split; [reflexivity|]. split; [|split].
  - destruct (commit_truncates_history cssRed noEdge e0 sUndo sUndo_Inv)
      as [(s' & snap & Hup & Hh & _ & _ & Hs & _ & Hold & Hnew & Hgone & _) _].
    exists s', snap. split_and!; [exact Hup|exact Hh| | |].
    + apply (Hgone 1%nat 11%nat); [cbn; lia|reflexivity].
    + apply Hold. cbn. lia.
    + rewrite <- Hnew, Hs. reflexivity.
  - destruct (commit_truncates_history cssRed noEdge e0 sStroke sStroke_Inv)
      as [(s' & snap & Hup & Hh & _ & _ & Hs & _ & Hold & Hnew & _ & _) _].
    exists s', snap. split_and!; [exact Hup|exact Hh| | | |exact Hs].
    + apply Hold. cbn. lia.
    + apply Hold. cbn. lia.
    + rewrite <- Hnew, Hs. reflexivity.
  - destruct (commit_truncates_history cssRed noEdge e0 sStroke sStroke_Inv)
      as [_ Hafter].
    destruct (Hafter 1%nat (e0, (1, 1)) [] 2%nat)
      as (s3 & snap & Hrun & Hh & _ & Hset & Hgone & Hold & Hs & _).
    + repeat constructor.
    + exists s3, snap.
      split_and!; [exact Hrun|exact Hh| | |exact Hs|exact Hset].
      * apply (Hgone 1%nat 11%nat); [cbn; lia|reflexivity].
      * apply Hold. cbn. lia.
Defined.

Lemma settle_points_witness :
  cursorInRange s0 ∧ noAlias s0 ∧
  ∃ s', handleMouseUp s0 = Some s' ∧ settled s'.
Proof.
  destruct (settle_points cssRed noEdge e0 s0 s0_reachable)
    as (Hc & Ha & _ & (s' & Hup & Hs & _) & _).
  split_and!; [exact Hc|exact Ha|]. exists s'. split; [exact Hup|exact Hs].
Defined.

(** C4 as stated fails for an undo at cursor 0 while the grid store is
    ahead of the history: the cursor does not change, so no render and no
    effect follow, and the painted grid stays while the entry at the cursor
    is the blank one. *)
Lemma undo_at_cursor_0_keeps_unsaved_paint :
  mount e0 = Some s0 ∧
  ∃ s2,
    run cssRed noEdge [MouseDown e0 0 0; ctrlZ] s0 = Some s2 ∧
    historyStep s2 = 0 ∧
    (m ← grid s2; cellAt m 0 0) = Some (Some "red"%string) ∧
    (m ← entry s2 (historyStep s2); cellAt m 0 0)
      = Some (Some "transparent"%string).
Proof.
  split; [reflexivity|]. eexists.
  split; [vm_compute; reflexivity|]. split; [reflexivity|].
  split; vm_compute; reflexivity.
Qed.

(** The scenario of the spec: on a blank 3 x 3 canvas a stroke of a one-cell
    pen over (0,0), (0,1), (0,2) colours exactly these cells and commits one
    entry (history of length 2, cursor 1); an undo brings back the blank
    grid, cursor 0. *)
Lemma stroke_over_first_row :
  let red := Some "red"%string in
  let t := Some "transparent"%string in
  ∃ s s1 s2,
    mount e3 = Some s ∧
    run cssRed noEdge (stroke (e3, (0, 0)) [(e3, (0, 1)); (e3, (0, 2))]) s
      = Some s1 ∧
    grid s1 = Some [[red; red; red]; [t; t; t]; [t; t; t]] ∧
    length (history s1) = 2%nat ∧ historyStep s1 = 1 ∧
    run cssRed noEdge [ctrlZ] s1 = Some s2 ∧
    grid s2 = Some [[t; t; t]; [t; t; t]; [t; t; t]] ∧ historyStep s2 = 0.
Proof.
  do 3 eexists. split; [vm_compute; reflexivity|].
  split; [vm_compute; reflexivity|]. split; [vm_compute; reflexivity|].
  split; [reflexivity|]. split; [reflexivity|].
  split; [vm_compute; reflexivity|]. split; vm_compute; reflexivity.
Qed.

(* ================================================================= *)
(** ** The further statements at the 2 x 2 canvas *)

Lemma w0_Inv : Inv e0 (comp w0).
Proof.
  destruct s0_Inv as [Hcur Hpix Hhist Hnd Halias]. by split.
Qed.

Lemma grab_stroke_commits_copy_witness :
  ∃ s' m,
    run cssRed noEdge (stroke (e0grab, (0, 0)) [(e0grab, (1, 1))]) s0
      = Some s' ∧
    grid s0 = Some m ∧ grid s' = Some m ∧ historyStep s' = 1.
Proof.
  destruct (grab_stroke_commits_copy cssRed noEdge e0 s0
              (e0grab, (0, 0)) [(e0grab, (1, 1))] s0_Inv)
    as (s' & m & Hrun & Hg & Hg' & Hs & _).
  - repeat constructor.
  - exists s', m. split_and!; [exact Hrun|exact Hg|exact Hg'|exact Hs].
Defined.

Lemma stamp_overwrites_witness :
  ∃ s1 s2 s2',
    drawPixel cssRed noEdge e0 0 1 s0 = Some s1 ∧
    drawPixel cssRed noEdge e0eraser 0 1 s1 = Some s2 ∧
    drawPixel cssRed noEdge e0eraser 0 1 s0 = Some s2' ∧
    grid s2 = grid s2'.
Proof.
  apply (stamp_overwrites cssRed noEdge e0 e0eraser 0 1 s0 s0_Inv);
    reflexivity.
Defined.

Lemma paint_then_erase_witness :
  ∃ s1 s2,
    drawPixel cssRed noEdge e0 0 1 s0 = Some s1 ∧
    drawPixel cssRed noEdge e0eraser 0 1 s1 = Some s2 ∧
    grid s2 = grid s0.
Proof.
  apply (paint_then_erase cssRed noEdge e0 e0eraser 0 1 s0 _ s0_Inv);
    try reflexivity.
  intros r c (dy & dx & -> & -> & Hin)%elem_of_footprint Hb.
  apply elem_of_offsets in Hin as (Hy & Hx & _). cbn [penSize e0] in Hy, Hx.
  replace dy with 0 by lia. replace dx with 0 by lia. reflexivity.
Defined.

Lemma drawGhostBrush_rectangles_witness :
  filled (ctx (drawGhostBrush cssRed noEdge e0 w0))
  = [("red"%string, (0, 0, 10, 10))].
Proof.
  destruct (drawGhostBrush_rectangles cssRed noEdge e0 w0 0 0)
    as [_ Hf]; [reflexivity|reflexivity|reflexivity|].
  rewrite Hf. reflexivity.
Defined.

Lemma hover_never_edits_witness :
  ∃ s', run cssRed noEdge [MouseMove e0 0 1; MouseLeave; MouseMove e0 1 1] s0
          = Some s' ∧
        s' = setHoverPos (hoverPos s') s0.
Proof.
  apply (hover_never_edits cssRed noEdge); [reflexivity|].
  repeat constructor.
Defined.

Lemma events_never_raise_witness :
  ∃ s m,
    run cssRed noEdge
      [MouseDown e0 (-1) (-1); MouseMove e0 7 7; MouseUp; ctrlZ; ctrlZ] s0
      = Some s ∧
    grid s = Some m ∧ Z.of_nat (length m) = 2 ∧
    Forall (λ row, Z.of_nat (length row) = 2) m.
Proof.
  apply (events_never_raise cssRed noEdge e0 s0); [reflexivity|].
  repeat constructor.
Defined.

Lemma history_changes_only_on_mouseUp_witness :
  ∃ s', run cssRed noEdge
          [MouseDown e0 0 0; MouseMove e0 0 1; MouseLeave; ctrlZ] s0 = Some s' ∧
        history s' = history s0 ∧ historyStep s' <= historyStep s0.
Proof.
  destruct (history_changes_only_on_mouseUp cssRed noEdge e0
              [MouseDown e0 0 0; MouseMove e0 0 1; MouseLeave; ctrlZ]
              s0 s0_Inv) as (s' & Hrun & Hh & Hs & _).
  - repeat constructor.
  - repeat constructor; discriminate.
  - exists s'. split_and!; [exact Hrun|exact Hh|exact Hs].
Defined.

(** After the stroke over (0, 0) the grid store has a red cell and the
    cursor is at 1; the first entry is blank, and three undos bring the
    blank grid back. *)
Lemma undo_all_restores_blank_witness :
  historyStep sStroke = 1 ∧
  (m ← grid sStroke; cellAt m 0 0) = Some (Some "red"%string) ∧
  entry sStroke 0 = Some (blankGrid e0) ∧
  ∃ s', run cssRed noEdge (replicate 3 ctrlZ) sStroke = Some s' ∧
        historyStep s' = 0 ∧ grid s' = Some (blankGrid e0).
Proof.
  split; [reflexivity|]. split; [reflexivity|].
  destruct (undo_all_restores_blank cssRed noEdge e0 sStroke sStroke_reachable)
    as (Hfirst & Hundo).
  split; [exact Hfirst|].
  destruct (Hundo 3%nat) as (s' & Hrun & Hs & Hg & _).
  - left. reflexivity.
  - cbn. lia.
  - exists s'. split_and!; [exact Hrun|exact Hs|exact Hg].
Defined.

Lemma drawPixel_copy_on_write_witness :
  ∃ s', drawPixel cssRed noEdge e0 0 0 s0 = Some s' ∧
        readGrid (mem s') (pixels s0) = grid s0.
Proof.
  destruct (drawPixel_copy_on_write cssRed noEdge e0 0 0 s0 s0_Inv)
    as (s' & Hd & Hr & _).
  exists s'. split; [exact Hd|exact Hr].
Defined.

Lemma stroke_paints_union_witness :
  ∃ s' m',
    run cssRed noEdge
      (MouseDown e0 0 0 :: ((λ p, MouseMove e0 p.1 p.2) <$> [(0, 1); (1, 1)]))
      s0 = Some s' ∧
    grid s' = Some m' ∧ cellAt m' 1 1 = Some (Some "red"%string) ∧
    cellAt m' 1 0 = Some (Some "transparent"%string).
Proof.
  destruct (stroke_paints_union cssRed noEdge e0 (0, 0) [(0, 1); (1, 1)]
              s0 (blankGrid e0) s0_Inv) as (s' & m' & Hrun & Hg & _ & Hc);
    [reflexivity|reflexivity|].
  exists s', m'. split_and!; [exact Hrun|exact Hg| |].
  - rewrite Hc. reflexivity.
  - rewrite Hc. reflexivity.
Defined.

Lemma cells_always_coloured_witness :
  ∃ m, grid s0 = Some m ∧ ∃ colour, cellAt m 1 1 = Some (Some colour).
Proof.
  destruct (cells_always_coloured cssRed noEdge e0 s0 s0_reachable)
    as (_ & m & Hg & Hc).
  exists m. split; [exact Hg|]. apply Hc. reflexivity.
Defined.

Lemma drawForegroundGrid_paints_grid_witness :
  ∃ w' kept new,
    drawForegroundGrid e0 w0 = Some w' ∧ filled (ctx w') = kept ++ new ∧
    length new = 4%nat.
Proof.
  destruct (drawForegroundGrid_paints_grid e0 w0 (blankGrid e0) w0_Inv)
    as (w' & kept & new & Hd & _ & Hf & Hnew & _).
  - reflexivity.
  - apply noHoles_blankGrid.
  - exists w', kept, new. split_and!; [exact Hd|exact Hf|].
    apply Forall2_length in Hnew. rewrite <- Hnew. reflexivity.
Defined.
